(** * RdsIamAuth: the credential-rotating connection pool manager

    A shallow embedding of [RdsIamAuthManager] (RdsIamAuth.js).  The class
    keeps four mutable fields ([pool], [tokenRefreshInterval], [currentToken],
    [tokenExpiryTime]) and talks to four collaborators it does not control: the
    RDS signer, the mysql2 pool primitive, the timer API and the wall clock.

    The methods are written in a state-and-exception monad over a [World]: the
    manager's fields, the chronological trace of every observable call the
    code makes, and the bookkeeping of the collaborators.  What a collaborator
    answers is read from an [Externals] record, indexed by the number of the
    call, so that a theorem quantified over [Externals] speaks about every
    behaviour of the signer, the driver and the clock.  A JavaScript [throw]
    keeps the assignments made before it: [Throw] carries the world reached. *)

From Stdlib Require Import ZArith String List Bool Lia.
Import ListNotations.

Local Open Scope string_scope.

(* ===================================================================== *)
(** ** Data model *)
(* ===================================================================== *)

Module RdsIamAuth.

(** A JavaScript [Error] value, identified by its message. *)
Inductive Error : Type := MkError (message : string).

(** How a call completes: it returns a value or throws (an awaited promise
    that rejects throws at the [await]). *)
Inductive Completion (A : Type) : Type :=
| Normal (a : A)
| Throw (e : Error).
Arguments Normal {A} a.
Arguments Throw {A} e.

Definition PoolId := nat.
Definition ConnId := nat.
Definition TimerId := nat.

(** The rows a query yields; opaque to the manager, which hands them on. *)
Definition Results := list (list string).

(** [process.env]: a variable is unset ([None]) or a string. *)
Record ProcessEnv : Type := {
  DB_HOST : option string;
  DB_PORT : option string;
  DB_USER : option string;
  DB_DATABASE : option string;
  AWS_REGION : option string;
  USE_IAM_AUTH : option string;
  DB_POOL_SIZE : option string;
  DB_QUEUE_LIMIT : option string;
  DB_PWD : option string
}.

(** [process.env.DB_PORT || 3306]: the string of the environment, or the
    number 3306. *)
Inductive Port : Type :=
| PortStr (s : string)
| PortNum (n : Z).

Record SslOptions : Type := { rejectUnauthorized : bool }.

(** [this.config] *)
Record Config : Type := {
  host : option string;
  port : Port;
  user : option string;
  database : option string;
  region : string;
  ssl : option SslOptions
}.

(** The argument of [new Signer({...})]. *)
Record SignerConfig : Type := {
  signer_region : string;
  signer_hostname : option string;
  signer_port : Port;
  signer_username : option string
}.

(** [this.poolConfig]; [parseInt] yields [None] for NaN. *)
Record PoolConfig : Type := {
  connectionLimit : option Z;
  queueLimit : option Z;
  waitForConnections : bool;
  enableKeepAlive : bool;
  keepAliveInitialDelay : Z;
  connectTimeout : Z;
  idleTimeout : Z
}.

(** [poolOptions]: the spread of [this.config] and [this.poolConfig] (kept
    here as the two records), the password, and the auth plugin table.
    [authPlugins = Some t] stands for
    [{ mysql_clear_password: () => () => t }], the closure over [t]. *)
Record PoolOptions : Type := {
  options_config : Config;
  options_poolConfig : PoolConfig;
  password : option string;
  authPlugins : option string
}.

(** A pool object of the driver: its identity and the options
    [mysql.createPool] received for it. *)
Record Pool : Type := {
  pool_id : PoolId;
  pool_options : PoolOptions
}.

Record Connection : Type := {
  conn_id : ConnId;
  conn_pool : PoolId
}.

(** The fields of an [RdsIamAuthManager] instance. *)
Record Manager : Type := {
  pool : option Pool;
  tokenRefreshInterval : option TimerId;
  currentToken : option string;
  tokenExpiryTime : option Z;
  config : Config;
  signer : SignerConfig;
  poolConfig : PoolConfig
}.

(** An argument of [console.log] / [console.error]. *)
Inductive LogArg : Type :=
| Str (s : string)
| EnvVar (v : option string)
| IsoDate (ms : Z)
| Err (e : Error).

(** Every call the manager makes on something outside itself, in the order
    made. *)
Inductive Event : Type :=
| ConsoleLog (args : list LogArg)
| ConsoleError (args : list LogArg)
| SignerGetAuthToken
| DateNow
| MysqlCreatePool (options : PoolOptions)
| PoolOn (p : PoolId) (event : string)
| PoolEnd (p : PoolId)
| PoolGetConnection (p : PoolId)
| PoolQuery (p : PoolId) (sql : string) (params : list string)
| ConnectionRelease (c : ConnId)
| SetInterval (h : TimerId) (ms : Z)
| ClearInterval (h : TimerId).

(** What the collaborators answer.  The [n]-th call of a kind (counted from
    0, over the whole run) gets the [n]-th answer of that kind. *)
Record Externals : Type := {
  env : ProcessEnv;
  parseInt : string -> option Z;
  Signer_getAuthToken : nat -> Completion string;
  Date_now : nat -> Z;
  mysql_createPool : nat -> option Error;
  Pool_end : nat -> option Error;
  Pool_getConnection : nat -> option Error;
  Pool_query : nat -> Completion Results
}.

(** The manager together with what has been observed of, and is known about,
    its collaborators: the trace, one call counter per kind of call, the
    pools whose [end()] has completed, and the interval timers still armed. *)
Record World : Type := {
  this : Manager;
  trace : list Event;
  signer_calls : nat;
  now_calls : nat;
  createPool_calls : nat;
  end_calls : nat;
  getConnection_calls : nat;
  query_calls : nat;
  timers_created : nat;
  ended : list PoolId;
  timers : list TimerId
}.

(* --------------------------------------------------------------------- *)
(** *** Field updates *)

Definition set_this (f : Manager -> Manager) (w : World) : World :=
  {| this := f (this w); trace := trace w;
     signer_calls := signer_calls w; now_calls := now_calls w;
     createPool_calls := createPool_calls w; end_calls := end_calls w;
     getConnection_calls := getConnection_calls w;
     query_calls := query_calls w; timers_created := timers_created w;
     ended := ended w; timers := timers w |}.

Definition with_pool (p : option Pool) (m : Manager) : Manager :=
  {| pool := p; tokenRefreshInterval := tokenRefreshInterval m;
     currentToken := currentToken m; tokenExpiryTime := tokenExpiryTime m;
     config := config m; signer := signer m; poolConfig := poolConfig m |}.

Definition with_tokenRefreshInterval (h : option TimerId) (m : Manager)
  : Manager :=
  {| pool := pool m; tokenRefreshInterval := h;
     currentToken := currentToken m; tokenExpiryTime := tokenExpiryTime m;
     config := config m; signer := signer m; poolConfig := poolConfig m |}.

Definition with_currentToken (t : option string) (m : Manager) : Manager :=
  {| pool := pool m; tokenRefreshInterval := tokenRefreshInterval m;
     currentToken := t; tokenExpiryTime := tokenExpiryTime m;
     config := config m; signer := signer m; poolConfig := poolConfig m |}.

Definition with_tokenExpiryTime (t : option Z) (m : Manager) : Manager :=
  {| pool := pool m; tokenRefreshInterval := tokenRefreshInterval m;
     currentToken := currentToken m; tokenExpiryTime := t;
     config := config m; signer := signer m; poolConfig := poolConfig m |}.

Definition log_event (e : Event) (w : World) : World :=
  {| this := this w; trace := trace w ++ [e];
     signer_calls := signer_calls w; now_calls := now_calls w;
     createPool_calls := createPool_calls w; end_calls := end_calls w;
     getConnection_calls := getConnection_calls w;
     query_calls := query_calls w; timers_created := timers_created w;
     ended := ended w; timers := timers w |}.

Definition tick_signer (w : World) : World :=
  {| this := this w; trace := trace w;
     signer_calls := S (signer_calls w); now_calls := now_calls w;
     createPool_calls := createPool_calls w; end_calls := end_calls w;
     getConnection_calls := getConnection_calls w;
     query_calls := query_calls w; timers_created := timers_created w;
     ended := ended w; timers := timers w |}.

Definition tick_now (w : World) : World :=
  {| this := this w; trace := trace w;
     signer_calls := signer_calls w; now_calls := S (now_calls w);
     createPool_calls := createPool_calls w; end_calls := end_calls w;
     getConnection_calls := getConnection_calls w;
     query_calls := query_calls w; timers_created := timers_created w;
     ended := ended w; timers := timers w |}.

Definition tick_createPool (w : World) : World :=
  {| this := this w; trace := trace w;
     signer_calls := signer_calls w; now_calls := now_calls w;
     createPool_calls := S (createPool_calls w); end_calls := end_calls w;
     getConnection_calls := getConnection_calls w;
     query_calls := query_calls w; timers_created := timers_created w;
     ended := ended w; timers := timers w |}.

Definition tick_end (w : World) : World :=
  {| this := this w; trace := trace w;
     signer_calls := signer_calls w; now_calls := now_calls w;
     createPool_calls := createPool_calls w; end_calls := S (end_calls w);
     getConnection_calls := getConnection_calls w;
     query_calls := query_calls w; timers_created := timers_created w;
     ended := ended w; timers := timers w |}.

Definition tick_getConnection (w : World) : World :=
  {| this := this w; trace := trace w;
     signer_calls := signer_calls w; now_calls := now_calls w;
     createPool_calls := createPool_calls w; end_calls := end_calls w;
     getConnection_calls := S (getConnection_calls w);
     query_calls := query_calls w; timers_created := timers_created w;
     ended := ended w; timers := timers w |}.

Definition tick_query (w : World) : World :=
  {| this := this w; trace := trace w;
     signer_calls := signer_calls w; now_calls := now_calls w;
     createPool_calls := createPool_calls w; end_calls := end_calls w;
     getConnection_calls := getConnection_calls w;
     query_calls := S (query_calls w); timers_created := timers_created w;
     ended := ended w; timers := timers w |}.

Definition mark_ended (p : PoolId) (w : World) : World :=
  {| this := this w; trace := trace w;
     signer_calls := signer_calls w; now_calls := now_calls w;
     createPool_calls := createPool_calls w; end_calls := end_calls w;
     getConnection_calls := getConnection_calls w;
     query_calls := query_calls w; timers_created := timers_created w;
     ended := p :: ended w; timers := timers w |}.

Definition arm_timer (w : World) : World :=
  {| this := this w; trace := trace w;
     signer_calls := signer_calls w; now_calls := now_calls w;
     createPool_calls := createPool_calls w; end_calls := end_calls w;
     getConnection_calls := getConnection_calls w;
     query_calls := query_calls w; timers_created := S (timers_created w);
     ended := ended w; timers := timers_created w :: timers w |}.

Definition disarm_timer (h : TimerId) (w : World) : World :=
  {| this := this w; trace := trace w;
     signer_calls := signer_calls w; now_calls := now_calls w;
     createPool_calls := createPool_calls w; end_calls := end_calls w;
     getConnection_calls := getConnection_calls w;
     query_calls := query_calls w; timers_created := timers_created w;
     ended := ended w;
     timers := filter (fun h' => negb (Nat.eqb h' h)) (timers w) |}.

(* ===================================================================== *)
(** ** The monad of the methods *)
(* ===================================================================== *)

Definition M (A : Type) : Type := World -> Completion A * World.

Definition ret {A} (a : A) : M A := fun w => (Normal a, w).

Definition throw {A} (e : Error) : M A := fun w => (Throw e, w).

Definition bind {A B} (m : M A) (k : A -> M B) : M B :=
  fun w =>
    match m w with
    | (Normal a, w') => k a w'
    | (Throw e, w') => (Throw e, w')
    end.

(** [try { m } catch (error) { h error }] *)
Definition try_catch {A} (m : M A) (h : Error -> M A) : M A :=
  fun w =>
    match m w with
    | (Normal a, w') => (Normal a, w')
    | (Throw e, w') => h e w'
    end.

Definition get_this : M Manager := fun w => (Normal (this w), w).

Definition modify_this (f : Manager -> Manager) : M unit :=
  fun w => (Normal tt, set_this f w).

Declare Scope js_scope.
Delimit Scope js_scope with js.
Notation "x <- m ;; k" := (bind m (fun x => k))
  (at level 61, m at next level, right associativity) : js_scope.
Notation "m ;; k" := (bind m (fun _ => k))
  (at level 61, right associativity) : js_scope.
Local Open Scope js_scope.

(** [v || d] for a string [v] that may be undefined: the empty string is
    falsy too. *)
Definition or_else (v : option string) (d : string) : string :=
  match v with
  | Some s => if String.eqb s "" then d else s
  | None => d
  end.

(* ===================================================================== *)
(** ** The collaborators and the class *)
(* ===================================================================== *)

Section Methods.

Variable ext : Externals.

(** [process.env.USE_IAM_AUTH === 'true'] *)
Definition use_iam_auth : bool :=
  match USE_IAM_AUTH (env ext) with
  | Some s => String.eqb s "true"
  | None => false
  end.

(* --------------------------------------------------------------------- *)
(** *** Calls on the collaborators *)

Definition console_log (args : list LogArg) : M unit :=
  fun w => (Normal tt, log_event (ConsoleLog args) w).

Definition console_error (args : list LogArg) : M unit :=
  fun w => (Normal tt, log_event (ConsoleError args) w).

(** [await this.signer.getAuthToken()] *)
Definition signer_getAuthToken : M string :=
  fun w =>
    (Signer_getAuthToken ext (signer_calls w),
     tick_signer (log_event SignerGetAuthToken w)).

(** [Date.now()] *)
Definition date_now : M Z :=
  fun w => (Normal (Date_now ext (now_calls w)), tick_now (log_event DateNow w)).

(** [mysql.createPool(poolOptions)]: a fresh pool object, or a throw. *)
Definition mysql_create_pool (options : PoolOptions) : M Pool :=
  fun w =>
    let w' := tick_createPool (log_event (MysqlCreatePool options) w) in
    match mysql_createPool ext (createPool_calls w) with
    | None =>
        (Normal {| pool_id := createPool_calls w; pool_options := options |},
         w')
    | Some e => (Throw e, w')
    end.

(** [pool.on(event, listener)]: registration of a logging listener. *)
Definition pool_on (p : Pool) (event : string) : M unit :=
  fun w => (Normal tt, log_event (PoolOn (pool_id p) event) w).

(** [await pool.end()] *)
Definition pool_end (p : Pool) : M unit :=
  fun w =>
    let w' := tick_end (log_event (PoolEnd (pool_id p)) w) in
    match Pool_end ext (end_calls w) with
    | None => (Normal tt, mark_ended (pool_id p) w')
    | Some e => (Throw e, w')
    end.

(** [await pool.getConnection()] *)
Definition pool_getConnection (p : Pool) : M Connection :=
  fun w =>
    let w' := tick_getConnection (log_event (PoolGetConnection (pool_id p)) w) in
    match Pool_getConnection ext (getConnection_calls w) with
    | None =>
        (Normal {| conn_id := getConnection_calls w; conn_pool := pool_id p |},
         w')
    | Some e => (Throw e, w')
    end.

(** [await pool.query(sql, params)] *)
Definition pool_query (p : Pool) (sql : string) (params : list string)
  : M Results :=
  fun w =>
    (Pool_query ext (query_calls w),
     tick_query (log_event (PoolQuery (pool_id p) sql params) w)).

(** [connection.release()] *)
Definition connection_release (c : Connection) : M unit :=
  fun w => (Normal tt, log_event (ConnectionRelease (conn_id c)) w).

(** [setInterval(callback, ms)]: the manager registers one callback only,
    [intervalCallback] below, so a timer is its handle and its period. *)
Definition setInterval (ms : Z) : M TimerId :=
  fun w =>
    (Normal (timers_created w),
     arm_timer (log_event (SetInterval (timers_created w) ms) w)).

(** [clearInterval(handle)] *)
Definition clearInterval (h : TimerId) : M unit :=
  fun w => (Normal tt, disarm_timer h (log_event (ClearInterval h) w)).

(* --------------------------------------------------------------------- *)
(** *** [constructor()] *)

Definition constructor : Manager :=
  let e := env ext in
  let port :=
    match DB_PORT e with
    | Some s => if String.eqb s "" then PortNum 3306 else PortStr s
    | None => PortNum 3306
    end in
  let region := or_else (AWS_REGION e) "ap-northeast-2" in
  {| pool := None;
     tokenRefreshInterval := None;
     currentToken := None;
     tokenExpiryTime := None;
     config :=
       {| host := DB_HOST e;
          port := port;
          user := DB_USER e;
          database := DB_DATABASE e;
          region := region;
          ssl := if use_iam_auth
                 then Some {| rejectUnauthorized := true |} else None |};
     signer :=
       {| signer_region := region;
          signer_hostname := DB_HOST e;
          signer_port := port;
          signer_username := DB_USER e |};
     poolConfig :=
       {| connectionLimit := parseInt ext (or_else (DB_POOL_SIZE e) "10");
          queueLimit := parseInt ext (or_else (DB_QUEUE_LIMIT e) "0");
          waitForConnections := true;
          enableKeepAlive := true;
          keepAliveInitialDelay := 10000;
          connectTimeout := 10000;
          idleTimeout := 480000 |} |}.

(** The world right after [new RdsIamAuthManager()]. *)
Definition initial_world : World :=
  {| this := constructor; trace := [];
     signer_calls := 0; now_calls := 0; createPool_calls := 0;
     end_calls := 0; getConnection_calls := 0; query_calls := 0;
     timers_created := 0; ended := []; timers := [] |}.

(* --------------------------------------------------------------------- *)
(** *** [generateAuthToken()] *)

Definition generateAuthToken : M string :=
  console_log [Str "Generating new RDS IAM authentication token..."] ;;
  token <- signer_getAuthToken ;;
  modify_this (with_currentToken (Some token)) ;;
  now <- date_now ;;
  let expiry := (now + 14 * 60 * 1000)%Z in
  modify_this (with_tokenExpiryTime (Some expiry)) ;;
  console_log [Str "New token generated, expires at:"; IsoDate expiry] ;;
  ret token.

(* --------------------------------------------------------------------- *)
(** *** [isTokenExpired()] *)

Definition isTokenExpired : M bool :=
  self <- get_this ;;
  match tokenExpiryTime self with
  | None => ret true
  | Some expiry =>
      if Z.eqb expiry 0 then ret true
      else
        now <- date_now ;;
        ret (now >=? expiry - 60000)%Z
  end.

(* --------------------------------------------------------------------- *)
(** *** [createPool(token = null)] *)

Definition createPool (token : option string) : M Pool :=
  self <- get_this ;;
  poolOptions <-
    (if use_iam_auth then
       token <- match token with
                | Some t => if String.eqb t "" then generateAuthToken else ret t
                | None => generateAuthToken
                end ;;
       ret {| options_config := config self;
              options_poolConfig := poolConfig self;
              password := Some token;
              authPlugins := Some token |}
     else
       ret {| options_config := config self;
              options_poolConfig := poolConfig self;
              password := DB_PWD (env ext);
              authPlugins := None |}) ;;
  console_log [Str "Creating new connection pool..."] ;;
  pool <- mysql_create_pool poolOptions ;;
  pool_on pool "acquire" ;;
  pool_on pool "release" ;;
  pool_on pool "enqueue" ;;
  ret pool.

(* --------------------------------------------------------------------- *)
(** *** [refreshPool()] *)

Definition refreshPool : M unit :=
  console_log [Str "Refreshing connection pool..."] ;;
  try_catch
    (newToken <- generateAuthToken ;;
     self <- get_this ;;
     match pool self with
     | Some old =>
         console_log [Str "Closing old connection pool..."] ;;
         pool_end old
     | None => ret tt
     end ;;
     pool <- createPool (Some newToken) ;;
     modify_this (with_pool (Some pool)) ;;
     console_log [Str "Connection pool refreshed successfully"])
    (fun error =>
       console_error [Str "Error refreshing connection pool:"; Err error] ;;
       throw error).

(* --------------------------------------------------------------------- *)
(** *** [initialize()] and the callback it hands to [setInterval] *)

Definition intervalCallback : M unit :=
  try_catch refreshPool
    (fun error => console_error [Str "Failed to refresh pool:"; Err error]).

Definition refreshInterval : Z := 13 * 60 * 1000.

Definition initialize : M unit :=
  console_log [Str "Initializing RDS IAM Auth Manager..."] ;;
  console_log [Str "USE_IAM_AUTH:"; EnvVar (USE_IAM_AUTH (env ext))] ;;
  try_catch
    (pool <- createPool None ;;
     modify_this (with_pool (Some pool)) ;;
     connection <- pool_getConnection pool ;;
     console_log [Str "Database connection test successful"] ;;
     connection_release connection ;;
     (if use_iam_auth then
        h <- setInterval refreshInterval ;;
        modify_this (with_tokenRefreshInterval (Some h)) ;;
        console_log [Str "Token refresh scheduled every 780 seconds"]
      else ret tt) ;;
     console_log [Str "RDS IAM Auth Manager initialized successfully"])
    (fun error =>
       console_error [Str "Failed to initialize RDS IAM Auth Manager:";
                      Err error] ;;
       throw error).

(* --------------------------------------------------------------------- *)
(** *** [getConnection()] and [query(sql, params = [])] *)

Definition not_initialized : Error :=
  MkError "Connection pool not initialized. Call initialize() first.".

(** [process.env.USE_IAM_AUTH === 'true' && this.isTokenExpired()]: the
    right operand is evaluated only when the left one is true. *)
Definition freshness_gate : M unit :=
  expired <- (if use_iam_auth then isTokenExpired else ret false) ;;
  if expired then
    console_log [Str "Token expired, refreshing pool..."] ;;
    refreshPool
  else ret tt.

Definition getConnection : M Connection :=
  self <- get_this ;;
  match pool self with
  | None => throw not_initialized
  | Some _ =>
      freshness_gate ;;
      self <- get_this ;;
      match pool self with
      | Some p => pool_getConnection p
      | None => throw (MkError "Cannot read properties of null")
      end
  end.

Definition query (sql : string) (params : list string) : M Results :=
  self <- get_this ;;
  match pool self with
  | None => throw not_initialized
  | Some _ =>
      freshness_gate ;;
      self <- get_this ;;
      match pool self with
      | Some p => pool_query p sql params
      | None => throw (MkError "Cannot read properties of null")
      end
  end.

(* --------------------------------------------------------------------- *)
(** *** [shutdown()] *)

Definition shutdown : M unit :=
  console_log [Str "Shutting down RDS IAM Auth Manager..."] ;;
  self <- get_this ;;
  match tokenRefreshInterval self with
  | Some h =>
      clearInterval h ;;
      modify_this (with_tokenRefreshInterval None)
  | None => ret tt
  end ;;
  self <- get_this ;;
  match pool self with
  | Some p =>
      pool_end p ;;
      modify_this (with_pool None)
  | None => ret tt
  end ;;
  console_log [Str "RDS IAM Auth Manager shut down successfully"].

(* --------------------------------------------------------------------- *)
(** *** Sessions: what a client and the timer may do to one manager *)

Inductive Call : Type :=
| Initialize
| RefreshPool
| GetConnection
| Query (sql : string) (params : list string)
| Shutdown
| IntervalTick.

(** The world after a call has completed, normally or by a throw.  The timer
    fires only while an interval is armed. *)
Definition run_call (c : Call) (w : World) : World :=
  match c with
  | Initialize => snd (initialize w)
  | RefreshPool => snd (refreshPool w)
  | GetConnection => snd (getConnection w)
  | Query sql params => snd (query sql params w)
  | Shutdown => snd (shutdown w)
  | IntervalTick =>
      match timers w with
      | [] => w
      | _ :: _ => snd (intervalCallback w)
      end
  end.

Definition run_calls (cs : list Call) (w : World) : World :=
  fold_left (fun w c => run_call c w) cs w.

End Methods.

(* --------------------------------------------------------------------- *)
(** *** Reading traces *)

(** The events appended to the trace between world [w] and world [w']. *)
Definition events_since (w w' : World) : list Event :=
  skipn (length (trace w)) (trace w').

(** Some event satisfying [P] occurs strictly before one satisfying [Q]. *)
Fixpoint occurs_before (P Q : Event -> bool) (tr : list Event) : bool :=
  match tr with
  | [] => false
  | e :: tr' => (P e && existsb Q tr') || occurs_before P Q tr'
  end.

Definition is_MysqlCreatePool (e : Event) : bool :=
  match e with MysqlCreatePool _ => true | _ => false end.

Definition is_PoolEnd (p : PoolId) (e : Event) : bool :=
  match e with PoolEnd q => Nat.eqb q p | _ => false end.

Definition is_PoolQuery (e : Event) : bool :=
  match e with PoolQuery _ _ _ => true | _ => false end.

Definition is_SignerGetAuthToken (e : Event) : bool :=
  match e with SignerGetAuthToken => true | _ => false end.

Definition is_DateNow (e : Event) : bool :=
  match e with DateNow => true | _ => false end.

Definition is_SetInterval (e : Event) : bool :=
  match e with SetInterval _ _ => true | _ => false end.

(** A [setInterval] with a period other than [ms]. *)
Definition is_SetInterval_other_than (ms : Z) (e : Event) : bool :=
  match e with SetInterval _ ms' => negb (Z.eqb ms' ms) | _ => false end.

Definition is_ClearInterval (e : Event) : bool :=
  match e with ClearInterval _ => true | _ => false end.

(** What the freshness gate prints before it rotates. *)
Definition gate_notice : Event :=
  ConsoleLog [Str "Token expired, refreshing pool..."].

(** A rotation announces itself once, on entry to [refreshPool]. *)
Definition is_rotation_start (e : Event) : bool :=
  match e with
  | ConsoleLog [Str s] => String.eqb s "Refreshing connection pool..."
  | _ => false
  end.

Definition count_rotations (tr : list Event) : nat :=
  length (filter is_rotation_start tr).

(** The pool was built with token [t]: as its password, and as what its
    [mysql_clear_password] plugin answers on every connect. *)
Definition built_with (p : Pool) (t : string) : Prop :=
  password (pool_options p) = Some t /\ authPlugins (pool_options p) = Some t.

(** A pool is usable while its [end()] has not completed. *)
Definition usable (w : World) (p : Pool) : Prop := ~ In (pool_id p) (ended w).

End RdsIamAuth.

Import RdsIamAuth.
Local Open Scope list_scope.

(* ===================================================================== *)
(** ** Concrete deployments *)
(* ===================================================================== *)

Module Scenario.

Definition env_token : ProcessEnv :=
  {| DB_HOST := Some "db.example.internal"; DB_PORT := Some "3306";
     DB_USER := Some "app"; DB_DATABASE := Some "ledger";
     AWS_REGION := None; USE_IAM_AUTH := Some "true";
     DB_POOL_SIZE := None; DB_QUEUE_LIMIT := None; DB_PWD := None |}.

Definition env_password : ProcessEnv :=
  {| DB_HOST := Some "db.example.internal"; DB_PORT := Some "3306";
     DB_USER := Some "app"; DB_DATABASE := Some "ledger";
     AWS_REGION := None; USE_IAM_AUTH := Some "false";
     DB_POOL_SIZE := None; DB_QUEUE_LIMIT := None;
     DB_PWD := Some "secret" |}.

Definition parse_small (s : string) : option Z :=
  if String.eqb s "10" then Some 10%Z
  else if String.eqb s "0" then Some 0%Z else None.

(** The signer hands out a different token on each of its first calls. *)
Definition tokens (n : nat) : Completion string :=
  match n with
  | 0 => Normal "token-A"
  | 1 => Normal "token-B"
  | _ => Normal "token-C"
  end.

(** A clock that shows one second more at each reading. *)
Definition clock (n : nat) : Z := (1700000000000 + 1000 * Z.of_nat n)%Z.

(** A clock that, after its first reading, shows a quarter of an hour
    later. *)
Definition clock_jump (n : nat) : Z :=
  match n with
  | 0 => 1700000000000%Z
  | _ => (1700000000000 + 15 * 60 * 1000)%Z
  end.

Definition boom : Error := MkError "boom".

Definition fails_at (k n : nat) : option Error :=
  if Nat.eqb n k then Some boom else None.

(** Token mode, every collaborator answering. *)
Definition healthy : Externals :=
  {| env := env_token; parseInt := parse_small;
     Signer_getAuthToken := tokens; Date_now := clock;
     mysql_createPool := fun _ => None; Pool_end := fun _ => None;
     Pool_getConnection := fun _ => None;
     Pool_query := fun _ => Normal [["1"]] |}.

(** Token mode; the first [end()] of a pool rejects. *)
Definition close_fails : Externals :=
  {| env := env_token; parseInt := parse_small;
     Signer_getAuthToken := tokens; Date_now := clock;
     mysql_createPool := fun _ => None; Pool_end := fails_at 0;
     Pool_getConnection := fun _ => None;
     Pool_query := fun _ => Normal [["1"]] |}.


(** Token mode; the second signer call rejects. *)
Definition signer_fails : Externals :=
  {| env := env_token; parseInt := parse_small;
     Signer_getAuthToken :=
       fun n => match n with 1 => Throw boom | _ => tokens n end;
     Date_now := clock;
     mysql_createPool := fun _ => None; Pool_end := fun _ => None;
     Pool_getConnection := fun _ => None;
     Pool_query := fun _ => Normal [["1"]] |}.

(** Token mode; the token is stale by the time it is next looked at. *)
Definition stale : Externals :=
  {| env := env_token; parseInt := parse_small;
     Signer_getAuthToken := tokens; Date_now := clock_jump;
     mysql_createPool := fun _ => None; Pool_end := fun _ => None;
     Pool_getConnection := fun _ => None;
     Pool_query := fun _ => Normal [["1"]] |}.

(** Password mode. *)
Definition static_password : Externals :=
  {| env := env_password; parseInt := parse_small;
     Signer_getAuthToken := tokens; Date_now := clock;
     mysql_createPool := fun _ => None; Pool_end := fun _ => None;
     Pool_getConnection := fun _ => None;
     Pool_query := fun _ => Normal [["1"]] |}.

(** The world once [initialize()] has returned. *)
Definition initialized (ext : Externals) : World :=
  run_calls ext [Initialize] (initial_world ext).

(** The pool [initialize()] installs in token mode when the signer answers
    [t]. *)
Definition first_pool (ext : Externals) (t : string) : Pool :=
  {| pool_id := 0;
     pool_options :=
       {| options_config := config (constructor ext);
          options_poolConfig := poolConfig (constructor ext);
          password := Some t;
          authPlugins := Some t |} |}.

End Scenario.

(* ===================================================================== *)
(** ** Properties of a rotation, as predicates on a run *)
(* ===================================================================== *)

(** A successful rotation that replaces pool [old] asks the driver for the
    new pool before it closes [old]. *)
Definition new_pool_before_close (ext : Externals) (w : World) : Prop :=
  forall old, pool (this w) = Some old ->
    fst (refreshPool ext w) = Normal tt ->
    occurs_before is_MysqlCreatePool (is_PoolEnd (pool_id old))
      (events_since w (snd (refreshPool ext w))) = true.

(** A rotation whose [end()] on the old pool rejects still completes. *)
Definition close_failure_not_fatal (ext : Externals) (w : World) : Prop :=
  forall old e, pool (this w) = Some old ->
    In (PoolEnd (pool_id old)) (events_since w (snd (refreshPool ext w))) ->
    Pool_end ext (end_calls w) = Some e ->
    fst (refreshPool ext w) = Normal tt.

(* ===================================================================== *)
(** ** The credential invariant *)
(* ===================================================================== *)

(** In token mode an installed pool comes with a stored token, and that token
    is the one the pool was built with. *)
Definition credential_invariant (ext : Externals) (w : World) : Prop :=
  use_iam_auth ext = true ->
  forall p, pool (this w) = Some p ->
    exists tok, currentToken (this w) = Some tok /\ built_with p tok.

(** The weaker half: in token mode an installed pool comes with a stored
    token. *)
Definition credential_present (ext : Externals) (w : World) : Prop :=
  use_iam_auth ext = true ->
  pool (this w) <> None -> currentToken (this w) <> None.

(** Collaborators under which no rotation can stop between storing the new
    token and installing the new pool: [end()] never rejects,
    [mysql.createPool] never throws, and the signer never answers with the
    empty string (which [createPool] takes for a missing token). *)
Definition dependable (ext : Externals) : Prop :=
  (forall n, Pool_end ext n = None) /\
  (forall n, mysql_createPool ext n = None) /\
  (forall n, Signer_getAuthToken ext n <> Normal "").


(* ===================================================================== *)
(** ** Properties of shutdown, as predicates on a run *)
(* ===================================================================== *)

(** [shutdown()] returns normally and leaves neither pool nor timer handle. *)
Definition shutdown_clears (ext : Externals) (w : World) : Prop :=
  fst (shutdown ext w) = Normal tt /\
  pool (this (snd (shutdown ext w))) = None /\
  tokenRefreshInterval (this (snd (shutdown ext w))) = None.

(** [shutdown()] finds nothing to do: it prints its two messages and
    returns, the manager's fields untouched. *)
Definition shutdown_idle (ext : Externals) (w : World) : Prop :=
  fst (shutdown ext w) = Normal tt /\
  this (snd (shutdown ext w)) = this w /\
  events_since w (snd (shutdown ext w)) =
    [ConsoleLog [Str "Shutting down RDS IAM Auth Manager..."];
     ConsoleLog [Str "RDS IAM Auth Manager shut down successfully"]].

Definition is_ConsoleError (e : Event) : bool :=
  match e with ConsoleError _ => true | _ => false end.

(** No refresh scheduler exists or ever existed: no timer is armed, the
    manager holds no handle, and [setInterval] was never called. *)
Definition no_scheduler (w : World) : Prop :=
  timers w = [] /\
  tokenRefreshInterval (this w) = None /\
  existsb is_SetInterval (trace w) = false.

(* ===================================================================== *)
(** ** Resources of the collaborators *)
(* ===================================================================== *)

Definition is_PoolGetConnection (e : Event) : bool :=
  match e with PoolGetConnection _ => true | _ => false end.

Definition is_ConnectionRelease (e : Event) : bool :=
  match e with ConnectionRelease _ => true | _ => false end.

(** An [end()] on any pool. *)
Definition is_any_PoolEnd (e : Event) : bool :=
  match e with PoolEnd _ => true | _ => false end.

(** Two worlds agree on the manager and on the pools and timers that exist:
    they may differ in the trace and in how often the signer, the clock and
    the pools' own methods were called. *)
Definition same_resources (w1 w2 : World) : Prop :=
  this w1 = this w2 /\
  ended w1 = ended w2 /\
  timers w1 = timers w2 /\
  createPool_calls w1 = createPool_calls w2 /\
  timers_created w1 = timers_created w2.

(** Identities are handed out in order: every pool that ended, and the pool
    installed, was created; every armed timer was created; and a handle the
    manager holds is the handle of an armed timer. *)
Definition well_formed (w : World) : Prop :=
  Forall (fun p => p < createPool_calls w) (ended w) /\
  Forall (fun h => h < timers_created w) (timers w) /\
  (forall p, pool (this w) = Some p -> pool_id p < createPool_calls w) /\
  (forall h, tokenRefreshInterval (this w) = Some h -> In h (timers w)).

(** A timer that is armed although the manager no longer holds its
    handle. *)
Definition orphaned (h : TimerId) (w : World) : Prop :=
  In h (timers w) /\
  tokenRefreshInterval (this w) <> Some h /\
  h < timers_created w.

(* ===================================================================== *)
(** ** The process around the manager: the singleton, the service's
       manager variable, start-up and the signal handler *)
(* ===================================================================== *)

Module App.

(** A reference to an [RdsIamAuthManager] object: its index in the heap. *)
Definition Ref := nat.

(** How a function of [index.js] ends: it returns, it throws, or the process
    has exited under it. *)
Inductive Outcome (A : Type) : Type :=
| Done (a : A)
| Raised (e : Error)
| Exited (code : Z).
Arguments Done {A} a.
Arguments Raised {A} e.
Arguments Exited {A} code.

(** The module-level variables of the three files, the manager objects
    constructed so far, and the world they act on.  Between method calls an
    object's fields live in [objects]; while a method runs they are the
    [this] of [world]. *)
Record Process : Type := {
  world : World;
  objects : list Manager;
  instance : option Ref;
  index_dbManager : option Ref;
  service_dbManager : option Ref;
  server : option Z;
  server_closed : bool;
  signal_handlers : list string
}.

Definition with_world (w : World) (p : Process) : Process :=
  {| world := w; objects := objects p; instance := instance p;
     index_dbManager := index_dbManager p;
     service_dbManager := service_dbManager p;
     server := server p; server_closed := server_closed p;
     signal_handlers := signal_handlers p |}.

Definition with_objects (os : list Manager) (p : Process) : Process :=
  {| world := world p; objects := os; instance := instance p;
     index_dbManager := index_dbManager p;
     service_dbManager := service_dbManager p;
     server := server p; server_closed := server_closed p;
     signal_handlers := signal_handlers p |}.

Definition with_instance (r : option Ref) (p : Process) : Process :=
  {| world := world p; objects := objects p; instance := r;
     index_dbManager := index_dbManager p;
     service_dbManager := service_dbManager p;
     server := server p; server_closed := server_closed p;
     signal_handlers := signal_handlers p |}.

Definition with_index_dbManager (r : option Ref) (p : Process) : Process :=
  {| world := world p; objects := objects p; instance := instance p;
     index_dbManager := r;
     service_dbManager := service_dbManager p;
     server := server p; server_closed := server_closed p;
     signal_handlers := signal_handlers p |}.

Definition with_service_dbManager (r : option Ref) (p : Process) : Process :=
  {| world := world p; objects := objects p; instance := instance p;
     index_dbManager := index_dbManager p;
     service_dbManager := r;
     server := server p; server_closed := server_closed p;
     signal_handlers := signal_handlers p |}.

Definition with_server (s : option Z) (p : Process) : Process :=
  {| world := world p; objects := objects p; instance := instance p;
     index_dbManager := index_dbManager p;
     service_dbManager := service_dbManager p;
     server := s; server_closed := server_closed p;
     signal_handlers := signal_handlers p |}.

Definition with_server_closed (b : bool) (p : Process) : Process :=
  {| world := world p; objects := objects p; instance := instance p;
     index_dbManager := index_dbManager p;
     service_dbManager := service_dbManager p;
     server := server p; server_closed := b;
     signal_handlers := signal_handlers p |}.

Definition with_signal_handlers (hs : list string) (p : Process) : Process :=
  {| world := world p; objects := objects p; instance := instance p;
     index_dbManager := index_dbManager p;
     service_dbManager := service_dbManager p;
     server := server p; server_closed := server_closed p;
     signal_handlers := hs |}.

Definition AppM (A : Type) : Type := Process -> Outcome A * Process.

Definition done {A} (a : A) : AppM A := fun p => (Done a, p).

Definition raise {A} (e : Error) : AppM A := fun p => (Raised e, p).

Definition and_then {A B} (m : AppM A) (k : A -> AppM B) : AppM B :=
  fun p =>
    match m p with
    | (Done a, p') => k a p'
    | (Raised e, p') => (Raised e, p')
    | (Exited c, p') => (Exited c, p')
    end.

(** [try { m } catch (err) { h err }]: an exit is not caught. *)
Definition catching {A} (m : AppM A) (h : Error -> AppM A) : AppM A :=
  fun p =>
    match m p with
    | (Raised e, p') => h e p'
    | other => other
    end.

Definition update (f : Process -> Process) : AppM unit :=
  fun p => (Done tt, f p).

Definition read {A} (f : Process -> A) : AppM A := fun p => (Done (f p), p).

Declare Scope app_scope.
Notation "x <-- m ;;; k" := (and_then m (fun x => k))
  (at level 61, m at next level, right associativity) : app_scope.
Notation "m ;;; k" := (and_then m (fun _ => k))
  (at level 61, right associativity) : app_scope.
Local Open Scope app_scope.

(** [objects[r] := obj] *)
Fixpoint store (r : Ref) (obj : Manager) (os : list Manager) : list Manager :=
  match os, r with
  | [], _ => []
  | _ :: os', 0 => obj :: os'
  | o :: os', S r' => o :: store r' obj os'
  end.

(** A statement that acts on the world only ([console.log]). *)
Definition in_world {A} (m : M A) : AppM A :=
  fun p =>
    match m (world p) with
    | (Normal a, w') => (Done a, with_world w' p)
    | (Throw e, w') => (Raised e, with_world w' p)
    end.

(** [r.method(...)]: the method runs with the object [r] as its [this], and
    the object keeps the fields the method leaves, also when it throws. *)
Definition on_manager {A} (r : Ref) (m : M A) : AppM A :=
  fun p =>
    match nth_error (objects p) r with
    | None => (Raised (MkError "Cannot read properties of undefined"), p)
    | Some obj =>
        match m (set_this (fun _ => obj) (world p)) with
        | (Normal a, w') =>
            (Done a, with_objects (store r (this w') (objects p))
                       (with_world w' p))
        | (Throw e, w') =>
            (Raised e, with_objects (store r (this w') (objects p))
                         (with_world w' p))
        end
    end.

(** [process.exit(code)] *)
Definition process_exit {A} (code : Z) : AppM A := fun p => (Exited code, p).

Section Functions.

Variable ext : Externals.

(** The process when the three modules have been loaded. *)
Definition initial_process : Process :=
  {| world := initial_world ext; objects := []; instance := None;
     index_dbManager := None; service_dbManager := None;
     server := None; server_closed := false; signal_handlers := [] |}.

(* --------------------------------------------------------------------- *)
(** *** RdsIamAuth.js: [getInstance()] *)

Definition getInstance : AppM Ref :=
  inst <-- read instance ;;;
  match inst with
  | Some r => done r
  | None =>
      os <-- read objects ;;;
      update (with_objects (os ++ [constructor ext])) ;;;
      update (with_instance (Some (length os))) ;;;
      done (length os)
  end.

(* --------------------------------------------------------------------- *)
(** *** TransactionService.js: [setDbManager], [getDbManager] *)

Definition setDbManager (manager : option Ref) : AppM unit :=
  update (with_service_dbManager manager).

Definition getDbManager : AppM Ref :=
  m <-- read service_dbManager ;;;
  match m with
  | Some r => done r
  | None =>
      r <-- getInstance ;;;
      update (with_service_dbManager (Some r)) ;;;
      done r
  end.

(* --------------------------------------------------------------------- *)
(** *** index.js: [initializeDatabase()] *)

Definition createTableQuery : string :=
  "
            CREATE TABLE IF NOT EXISTS transactions (
                id INT AUTO_INCREMENT PRIMARY KEY,
                amount DECIMAL(10, 2) NOT NULL,
                description VARCHAR(255) NOT NULL,
                created_at TIMESTAMP DEFAULT CURRENT_TIMESTAMP
            )
        ".

Definition initializeDatabase : AppM unit :=
  catching
    (in_world (console_log [Str "Initializing database..."]) ;;;
     r <-- getInstance ;;;
     update (with_index_dbManager (Some r)) ;;;
     on_manager r (initialize ext) ;;;
     setDbManager (Some r) ;;;
     on_manager r (query ext createTableQuery []) ;;;
     in_world
       (console_log [Str "Transactions table checked/created successfully"]))
    (fun err =>
       in_world
         (console_error [Str "Error initializing database:";
                         Str (match err with MkError m => m end)]) ;;;
       raise err).

(* --------------------------------------------------------------------- *)
(** *** index.js: the handler [setupGracefulShutdown()] registers *)

Definition newline : string := String (Ascii.ascii_of_nat 10) EmptyString.

Definition on_signal (signal : string) : AppM unit :=
  in_world
    (console_log
       [Str (newline ++ signal ++ " received, shutting down gracefully...")])
  ;;;
  srv <-- read server ;;;
  match srv with
  | Some _ => update (with_server_closed true)
  | None => done tt
  end ;;;
  m <-- read index_dbManager ;;;
  match m with
  | Some r => on_manager r (shutdown ext)
  | None => done tt
  end ;;;
  process_exit 0.

Definition setupGracefulShutdown : AppM unit :=
  hs <-- read signal_handlers ;;;
  update (with_signal_handlers (hs ++ ["SIGTERM"; "SIGINT"])).

(* --------------------------------------------------------------------- *)
(** *** index.js: [startServer()] *)

Definition port : Z := 4000.

Definition startServer : AppM unit :=
  catching
    (initializeDatabase ;;;
     in_world (console_log [Str "Database initialization complete"]) ;;;
     setupGracefulShutdown ;;;
     update (with_server (Some port)))
    (fun err =>
       in_world (console_error [Str "Failed to start server:"; Err err]) ;;;
       process_exit 1).

(** What the modules' users may do with the two manager variables. *)
Inductive ModuleCall : Type :=
| GetInstance
| GetDbManager
| SetDbManagerNull
| SetDbManagerToInstance.

(** The reference a call returns, if it returns one, and the process
    after it. *)
Definition run_module_call (c : ModuleCall) (p : Process)
  : option Ref * Process :=
  match c with
  | GetInstance =>
      match getInstance p with
      | (Done r, p') => (Some r, p')
      | (_, p') => (None, p')
      end
  | GetDbManager =>
      match getDbManager p with
      | (Done r, p') => (Some r, p')
      | (_, p') => (None, p')
      end
  | SetDbManagerNull => (None, snd (setDbManager None p))
  | SetDbManagerToInstance =>
      match getInstance p with
      | (Done r, p') => (None, snd (setDbManager (Some r) p'))
      | (_, p') => (None, p')
      end
  end.

(** The references returned in a sequence of calls, and the final process. *)
Fixpoint run_module_calls (cs : list ModuleCall) (p : Process)
  : list Ref * Process :=
  match cs with
  | [] => ([], p)
  | c :: cs' =>
      let '(r, p') := run_module_call c p in
      let '(rs, p'') := run_module_calls cs' p' in
      (match r with Some x => x :: rs | None => rs end, p'')
  end.

End Functions.

End App.

(** At most one manager object exists, and the variables that hold a
    reference hold its reference. *)
Definition single_manager (ext : Externals) (p : App.Process) : Prop :=
  (App.instance p = None /\ App.objects p = [] /\
   App.service_dbManager p = None) \/
  (App.instance p = Some 0 /\ App.objects p = [constructor ext] /\
   (App.service_dbManager p = None \/ App.service_dbManager p = Some 0)).

(** A process that has started: the singleton initialized, the server
    listening, the handlers registered. *)
Definition started_process (ext : Externals) : App.Process :=
  {| App.world := Scenario.initialized ext;
     App.objects := [this (Scenario.initialized ext)];
     App.instance := Some 0;
     App.index_dbManager := Some 0;
     App.service_dbManager := Some 0;
     App.server := Some App.port;
     App.server_closed := false;
     App.signal_handlers := ["SIGTERM"; "SIGINT"] |}.

(* ===================================================================== *)
(** ** Sessions that keep the credential, and what a rotation prints *)
(* ===================================================================== *)

(** The collaborators answer the next call made to them: the next [end()]
    resolves, the next [mysql.createPool] returns a pool, and the next token
    of the signer, if it hands one out, is not the empty string. *)
Definition answering (ext : Externals) (w : World) : Prop :=
  Pool_end ext (end_calls w) = None /\
  mysql_createPool ext (createPool_calls w) = None /\
  Signer_getAuthToken ext (signer_calls w) <> Normal "".

(** The call returns to its caller instead of throwing; for a timer tick,
    whose callback catches everything, the rotation it runs returns. *)
Definition call_returns (ext : Externals) (c : Call) (w : World) : Prop :=
  match c with
  | Initialize => fst (initialize ext w) = Normal tt
  | RefreshPool => fst (refreshPool ext w) = Normal tt
  | GetConnection => exists conn, fst (getConnection ext w) = Normal conn
  | Query sql params => exists rows, fst (query ext sql params w) = Normal rows
  | Shutdown => fst (shutdown ext w) = Normal tt
  | IntervalTick => timers w = [] \/ fst (refreshPool ext w) = Normal tt
  end.

(** Calls after which the stored token still belongs to the installed
    pool: [shutdown], a call that returns, and a call during which the
    collaborators answer. *)
Definition keeps_credential (ext : Externals) (c : Call) (w : World) : Prop :=
  c = Shutdown \/ call_returns ext c w \/ answering ext w.

(** Every call of the session [cs], run from [w], is such a call. *)
Fixpoint undisturbed (ext : Externals) (cs : list Call) (w : World) : Prop :=
  match cs with
  | [] => True
  | c :: cs' =>
      keeps_credential ext c w /\ undisturbed ext cs' (run_call ext c w)
  end.

(** The pool a rotation builds in token mode from manager [m]: the driver's
    [id]-th pool, its options the manager's configuration with token [t] as
    password and as the plugin's answer. *)
Definition token_pool (m : Manager) (id : PoolId) (t : string) : Pool :=
  {| pool_id := id;
     pool_options :=
       {| options_config := config m;
          options_poolConfig := poolConfig m;
          password := Some t;
          authPlugins := Some t |} |}.

(** The events of a rotation that replaces pool [old] by pool [new] and
    runs to its end; [expiry] is the expiry it stores. *)
Definition completed_rotation (old new : Pool) (expiry : Z) : list Event :=
  [ConsoleLog [Str "Refreshing connection pool..."];
   ConsoleLog [Str "Generating new RDS IAM authentication token..."];
   SignerGetAuthToken;
   DateNow;
   ConsoleLog [Str "New token generated, expires at:"; IsoDate expiry];
   ConsoleLog [Str "Closing old connection pool..."];
   PoolEnd (pool_id old);
   ConsoleLog [Str "Creating new connection pool..."];
   MysqlCreatePool (pool_options new);
   PoolOn (pool_id new) "acquire";
   PoolOn (pool_id new) "release";
   PoolOn (pool_id new) "enqueue";
   ConsoleLog [Str "Connection pool refreshed successfully"]].

(* ===================================================================== *)
(** ** Start-up of the process *)
(* ===================================================================== *)

(** Token mode; the connection test of [initialize()] fails. *)
Definition probe_fails : Externals :=
  {| env := Scenario.env_token; parseInt := Scenario.parse_small;
     Signer_getAuthToken := Scenario.tokens; Date_now := Scenario.clock;
     mysql_createPool := fun _ => None; Pool_end := fun _ => None;
     Pool_getConnection := Scenario.fails_at 0;
     Pool_query := fun _ => Normal [["1"]] |}.

(** What [shutdown()] prints on entry. *)
Definition is_shutdown_start (e : Event) : bool :=
  match e with
  | ConsoleLog [Str s] => String.eqb s "Shutting down RDS IAM Auth Manager..."
  | _ => false
  end.

(** The world in which [initializeDatabase()] calls [initialize()] on a
    freshly loaded process. *)
Definition startup_world (ext : Externals) : World :=
  log_event (ConsoleLog [Str "Initializing database..."]) (initial_world ext).

(** What [initializeDatabase()] and then [startServer()] print for an error
    [e] before the process exits. *)
Definition startup_failure (e : Error) : list Event :=
  [ConsoleError [Str "Error initializing database:";
                 Str (match e with MkError m => m end)];
   ConsoleError [Str "Failed to start server:"; Err e]].

(* ===================================================================== *)
(** ** Symbolic execution of the methods *)
(* ===================================================================== *)

(** The methods are unfolded on request only. *)
Arguments query : simpl never.
Arguments getConnection : simpl never.
Arguments shutdown : simpl never.
Arguments initialize : simpl never.
Arguments intervalCallback : simpl never.
Arguments refreshPool : simpl never.
Arguments generateAuthToken : simpl never.
Arguments isTokenExpired : simpl never.
Arguments shutdown_idle : simpl never.

(** Unfolds the monad and the collaborators' calls. *)
Ltac js_unfold :=
  unfold query, getConnection, shutdown, initialize, intervalCallback,
    freshness_gate, refreshPool, createPool, isTokenExpired,
    generateAuthToken, signer_getAuthToken, date_now, mysql_create_pool,
    pool_on, pool_end, pool_getConnection, pool_query, connection_release,
    setInterval, clearInterval, console_log, console_error, get_this,
    modify_this, try_catch, bind, ret, throw.

Ltac js_unfold_in H :=
  unfold query, getConnection, shutdown, initialize, intervalCallback,
    freshness_gate, refreshPool, createPool, isTokenExpired,
    generateAuthToken, signer_getAuthToken, date_now, mysql_create_pool,
    pool_on, pool_end, pool_getConnection, pool_query, connection_release,
    setInterval, clearInterval, console_log, console_error, get_this,
    modify_this, try_catch, bind, ret, throw in H.

(** Runs a method whose outcome was named by [destruct (m w) eqn:H]: steps
    through the answers the run depends on, using a hypothesis for an answer
    when there is one and splitting on it otherwise. *)
Ltac js_exec H :=
  js_unfold_in H; cbn in H;
  repeat (match type of H with
          | context [match ?x with _ => _ end] =>
              lazymatch x with
              | context [match _ with _ => _ end] => fail
              | _ =>
                  first [ match goal with
                          | E : x = _ |- _ => rewrite E in H
                          end
                        | destruct x eqn:? ];
                  cbn in H
              end
          end);
  injection H as <- <-.

(** Membership of a listed event. *)
Ltac in_trace := cbn; solve [ repeat first [ left; reflexivity | right ] ].

(** Reduces [events_since w w'] to the list of the events appended. *)
Ltac trace_norm :=
  unfold events_since; cbn;
  rewrite <- ?app_assoc; cbn;
  rewrite ?skipn_app, ?skipn_all, ?Nat.sub_diag; cbn.

(** Projects the fields of an updated world. *)
Ltac world_simpl :=
  cbn [fst snd this trace ended timers pool currentToken tokenExpiryTime
       tokenRefreshInterval set_this log_event tick_signer tick_now
       tick_createPool tick_end tick_getConnection tick_query mark_ended
       arm_timer disarm_timer with_pool with_tokenRefreshInterval
       with_currentToken with_tokenExpiryTime pool_options password
       authPlugins pool_id] in *.

(** An answer the run split on that [dependable] collaborators never give. *)
Ltac contradict_dependable :=
  match goal with
  | D : forall n, Pool_end ?ext n = None, E : Pool_end ?ext _ = Some _ |- _ =>
      rewrite D in E; discriminate E
  | D : forall n, mysql_createPool ?ext n = None,
    E : mysql_createPool ?ext _ = Some _ |- _ =>
      rewrite D in E; discriminate E
  | D : forall n, Signer_getAuthToken ?ext n <> Normal "",
    E : Signer_getAuthToken ?ext _ = Normal ?a, Q : (?a =? "")%string = true
    |- _ =>
      apply String.eqb_eq in Q; subst a; exfalso; exact (D _ E)
  end.

(** Closes a branch of a proof that a stored token is present. *)
Ltac present_finish Inv :=
  world_simpl; auto; try discriminate; try congruence;
  try (intros _; apply Inv; [assumption | discriminate]).

(** Closes a branch of a proof of the credential invariant. *)
Ltac invariant_finish Inv :=
  world_simpl; try contradict_dependable;
  try (intros p0 Hp0; try discriminate Hp0;
       first [ injection Hp0 as <-; eexists; split; [reflexivity|];
               split; reflexivity
             | apply Inv; assumption
             | rewrite Hp0 in *; apply Inv; reflexivity
             | exfalso; congruence ]).

(** An empty first token that the run split on, against [answering]. *)
Ltac contradict_answering :=
  match goal with
  | D : Signer_getAuthToken ?ext ?n <> Normal "",
    E : Signer_getAuthToken ?ext ?n = Normal ?a, Q : (?a =? "")%string = true
    |- _ =>
      apply String.eqb_eq in Q; subst a; exfalso; exact (D E)
  | D : Normal ?a <> Normal "", Q : (?a =? "")%string = true |- _ =>
      apply String.eqb_eq in Q; subst a; exfalso; exact (D eq_refl)
  end.

Ltac established_finish :=
  world_simpl;
  try (intros p0 Hp0; try discriminate Hp0;
       first [ injection Hp0 as <-; eexists; split; [reflexivity|];
               split; reflexivity
             | exfalso; congruence ]).

Ltac kept_finish Inv :=
  world_simpl; try contradict_answering;
  try (intros p0 Hp0; try discriminate Hp0;
       first [ injection Hp0 as <-; eexists; split; [reflexivity|];
               split; reflexivity
             | apply Inv; assumption
             | apply Inv; congruence
             | exfalso; congruence ]).

Lemma events_since_app (w w' : World) (evs : list Event) :
  trace w' = trace w ++ evs -> events_since w w' = evs.
Proof.
  unfold events_since. intros ->.
  rewrite skipn_app, skipn_all, Nat.sub_diag. reflexivity.
Qed.

(* ===================================================================== *)
(** ** Calls before a pool exists *)
(* ===================================================================== *)

(** C7. When [this.pool] is null, [query] and [getConnection] throw the
    not-initialized error and the world they leave is the world they found:
    no field of the manager changed, and the trace has no new event, hence no
    call to the signer, to the clock, to the driver, and no rotation. *)
Theorem not_initialized_no_effect (ext : Externals) (w : World)
    (sql : string) (params : list string) :
  pool (this w) = None ->
  query ext sql params w = (Throw not_initialized, w) /\
  getConnection ext w = (Throw not_initialized, w) /\
  query ext sql params (initial_world ext)
    = (Throw not_initialized, initial_world ext) /\
  getConnection ext (initial_world ext)
    = (Throw not_initialized, initial_world ext).
Proof.
  intros Hpool. js_unfold. rewrite Hpool. cbn. repeat split; reflexivity.
Qed.

Lemma not_initialized_no_effect_witness :
  query Scenario.healthy "SELECT 1" [] (initial_world Scenario.healthy)
  = (Throw not_initialized, initial_world Scenario.healthy).
Proof.
  assert (Hp : pool (this (initial_world Scenario.healthy)) = None)
    by reflexivity.
  exact (proj1 (not_initialized_no_effect Scenario.healthy _ "SELECT 1" []
                  Hp)).
Defined.

(* ===================================================================== *)
(** ** Rotation: failure to acquire the credential *)
(* ===================================================================== *)

(** C3. If the signer call of a rotation fails with [e], [refreshPool] throws
    [e] to its caller and every field of the manager is as before: the same
    pool installed, the same token, the same expiry, the same timer handle.
    The rotation made three announcements and the signer call, and nothing
    else: the installed pool was not closed and no pool was created. *)
Theorem refreshPool_signer_failure (ext : Externals) (w : World) (e : Error) :
  Signer_getAuthToken ext (signer_calls w) = Throw e ->
  exists w',
    refreshPool ext w = (Throw e, w') /\
    this w' = this w /\
    ended w' = ended w /\
    timers w' = timers w /\
    events_since w w' =
      [ConsoleLog [Str "Refreshing connection pool..."];
       ConsoleLog [Str "Generating new RDS IAM authentication token..."];
       SignerGetAuthToken;
       ConsoleError [Str "Error refreshing connection pool:"; Err e]].
Proof.
  intros Hsign. js_unfold. cbn. rewrite Hsign. cbn.
  eexists; split; [reflexivity|].
  repeat split.
  apply events_since_app. cbn. rewrite <- !app_assoc. reflexivity.
Qed.

Lemma refreshPool_signer_failure_witness :
  exists w',
    refreshPool Scenario.signer_fails
      (Scenario.initialized Scenario.signer_fails) = (Throw Scenario.boom, w') /\
    this w' = this (Scenario.initialized Scenario.signer_fails).
Proof.
  assert (Hs : Signer_getAuthToken Scenario.signer_fails
                 (signer_calls (Scenario.initialized Scenario.signer_fails))
               = Throw Scenario.boom) by (vm_compute; reflexivity).
  destruct (refreshPool_signer_failure Scenario.signer_fails _ _ Hs)
    as (w' & Hrun & Hthis & _).
  exists w'. split; assumption.
Defined.

(* ===================================================================== *)
(** ** Rotation: the order of closing and creating *)
(* ===================================================================== *)

(** C1, as the design document has it, does not hold of [refreshPool]: with
    every collaborator answering, the rotation after [initialize()] closes
    pool 0 and only then creates pool 1; and when [end()] of pool 0 rejects,
    the rotation throws. *)
Lemma rotation_order_counterexample :
  ~ new_pool_before_close Scenario.healthy
      (Scenario.initialized Scenario.healthy) /\
  ~ close_failure_not_fatal Scenario.close_fails
      (Scenario.initialized Scenario.close_fails).
Proof.
  split.
  - intros H. specialize (H _ eq_refl eq_refl). vm_compute in H. discriminate.
  - intros H.
    specialize (H _ Scenario.boom eq_refl).
    vm_compute in H.
    assert (Hthrow : Throw (A := unit) Scenario.boom = Normal tt).
    { apply H; [ do 6 right; left; reflexivity | reflexivity ]. }
    discriminate.
Qed.

(** C1, amended.  [refreshPool] closes before it creates.  In every rotation
    that completes from a state with pool [old] installed, [end()] of [old]
    precedes [mysql.createPool] and no pool is closed after the creation;
    [old] has ended and the pool installed is the one just created, built in
    token mode with the token now stored.  A rejection of [end()] is fatal:
    it is logged through [console.error] and thrown to the caller, no pool is
    created, and [old] stays installed. *)
Theorem refreshPool_closes_then_creates
    (ext : Externals) (w : World) (old : Pool) :
  pool (this w) = Some old ->
  let r := refreshPool ext w in
  let evs := events_since w (snd r) in
  (fst r = Normal tt ->
     occurs_before (is_PoolEnd (pool_id old)) is_MysqlCreatePool evs = true /\
     occurs_before is_MysqlCreatePool (is_PoolEnd (pool_id old)) evs = false /\
     In (pool_id old) (ended (snd r)) /\
     exists new,
       pool (this (snd r)) = Some new /\
       In (MysqlCreatePool (pool_options new)) evs /\
       (use_iam_auth ext = true ->
        exists tok,
          currentToken (this (snd r)) = Some tok /\ built_with new tok)) /\
  (forall tok e,
     Signer_getAuthToken ext (signer_calls w) = Normal tok ->
     Pool_end ext (end_calls w) = Some e ->
     fst r = Throw e /\
     evs =
       [ConsoleLog [Str "Refreshing connection pool..."];
        ConsoleLog [Str "Generating new RDS IAM authentication token..."];
        SignerGetAuthToken;
        DateNow;
        ConsoleLog [Str "New token generated, expires at:";
                    IsoDate (Date_now ext (now_calls w) + 840000)];
        ConsoleLog [Str "Closing old connection pool..."];
        PoolEnd (pool_id old);
        ConsoleError [Str "Error refreshing connection pool:"; Err e]] /\
     pool (this (snd r)) = Some old /\
     ended (snd r) = ended w).
Proof.
  intros Hpool r evs. subst evs r.
  destruct (refreshPool ext w) as [r w'] eqn:Hrun.
  js_exec Hrun; cbn [fst snd]; trace_norm; rewrite ?Nat.eqb_refl; cbn.
  all: split; [ intros Hok; try discriminate Hok
              | intros tok0 e0 Hs He; try discriminate Hs;
                try discriminate He ].
  all: try (repeat split; try reflexivity; try (left; reflexivity);
            eexists; repeat split;
            [ in_trace
            | intros; try discriminate; eexists; repeat split; reflexivity ]).
  all: try (injection He as <-; repeat split; congruence).
Qed.

Lemma refreshPool_closes_then_creates_witness :
  occurs_before
    (is_PoolEnd (pool_id (Scenario.first_pool Scenario.healthy "token-A")))
    is_MysqlCreatePool
    (events_since (Scenario.initialized Scenario.healthy)
       (snd (refreshPool Scenario.healthy
               (Scenario.initialized Scenario.healthy)))) = true /\
  fst (refreshPool Scenario.close_fails
         (Scenario.initialized Scenario.close_fails)) = Throw Scenario.boom.
Proof.
  split.
  - assert (Hpool : pool (this (Scenario.initialized Scenario.healthy))
                    = Some (Scenario.first_pool Scenario.healthy "token-A"))
      by (vm_compute; reflexivity).
    destruct (refreshPool_closes_then_creates Scenario.healthy _ _ Hpool)
      as [Hok _].
    assert (Hrun : fst (refreshPool Scenario.healthy
                          (Scenario.initialized Scenario.healthy)) = Normal tt)
      by (vm_compute; reflexivity).
    exact (proj1 (Hok Hrun)).
  - assert (Hpool : pool (this (Scenario.initialized Scenario.close_fails))
                    = Some (Scenario.first_pool Scenario.close_fails "token-A"))
      by (vm_compute; reflexivity).
    destruct (refreshPool_closes_then_creates Scenario.close_fails _ _ Hpool)
      as [_ Hfail].
    assert (Hs : Signer_getAuthToken Scenario.close_fails
                   (signer_calls (Scenario.initialized Scenario.close_fails))
                 = Normal "token-B") by (vm_compute; reflexivity).
    assert (He : Pool_end Scenario.close_fails
                   (end_calls (Scenario.initialized Scenario.close_fails))
                 = Some Scenario.boom) by (vm_compute; reflexivity).
    exact (proj1 (Hfail _ _ Hs He)).
Defined.

(* --------------------------------------------------------------------- *)
(** *** The freshness gate and its callers, one layer at a time *)

(** The gate either lets the call through, having at most read the clock, or
    runs [refreshPool] once. *)
Lemma freshness_gate_spec (ext : Externals) (w : World) :
  freshness_gate ext w =
    if use_iam_auth ext then
      match tokenExpiryTime (this w) with
      | None => refreshPool ext (log_event gate_notice w)
      | Some expiry =>
          if (expiry =? 0)%Z then refreshPool ext (log_event gate_notice w)
          else if (Date_now ext (now_calls w) >=? expiry - 60000)%Z
               then refreshPool ext
                      (log_event gate_notice (tick_now (log_event DateNow w)))
               else (Normal tt, tick_now (log_event DateNow w))
      end
    else (Normal tt, w).
Proof.
  unfold freshness_gate, isTokenExpired, date_now, console_log, get_this,
    bind, ret, gate_notice.
  destruct (use_iam_auth ext); [|reflexivity].
  destruct (tokenExpiryTime (this w)) as [expiry|]; [|reflexivity].
  destruct (expiry =? 0)%Z; [reflexivity|].
  destruct (Date_now ext (now_calls w) >=? expiry - 60000)%Z; reflexivity.
Qed.

Lemma query_spec (ext : Externals) (sql : string) (params : list string)
    (w : World) :
  query ext sql params w =
    match pool (this w) with
    | None => (Throw not_initialized, w)
    | Some _ =>
        match freshness_gate ext w with
        | (Normal _, w1) =>
            match pool (this w1) with
            | Some p => pool_query ext p sql params w1
            | None => (Throw (MkError "Cannot read properties of null"), w1)
            end
        | (Throw e, w1) => (Throw e, w1)
        end
    end.
Proof.
  unfold query, get_this, bind, throw.
  destruct (pool (this w)); [|reflexivity].
  destruct (freshness_gate ext w) as [[[]|e] w1]; [|reflexivity].
  destruct (pool (this w1)); reflexivity.
Qed.

Lemma getConnection_spec (ext : Externals) (w : World) :
  getConnection ext w =
    match pool (this w) with
    | None => (Throw not_initialized, w)
    | Some _ =>
        match freshness_gate ext w with
        | (Normal _, w1) =>
            match pool (this w1) with
            | Some p => pool_getConnection ext p w1
            | None => (Throw (MkError "Cannot read properties of null"), w1)
            end
        | (Throw e, w1) => (Throw e, w1)
        end
    end.
Proof.
  unfold getConnection, get_this, bind, throw.
  destruct (pool (this w)); [|reflexivity].
  destruct (freshness_gate ext w) as [[[]|e] w1]; [|reflexivity].
  destruct (pool (this w1)); reflexivity.
Qed.

Lemma intervalCallback_spec (ext : Externals) (w : World) :
  intervalCallback ext w =
    match refreshPool ext w with
    | (Normal _, w1) => (Normal tt, w1)
    | (Throw e, w1) =>
        (Normal tt,
         log_event (ConsoleError [Str "Failed to refresh pool:"; Err e]) w1)
    end.
Proof.
  unfold intervalCallback, try_catch, console_error.
  destruct (refreshPool ext w) as [[[]|e] w1]; reflexivity.
Qed.

(** What a call leaves in the manager's fields is what it found, or what a
    single [refreshPool], run on the fields it found, leaves. *)
Lemma this_after_gate (ext : Externals) (w : World) :
  this (snd (freshness_gate ext w)) = this w \/
  exists w0, this w0 = this w /\
    this (snd (freshness_gate ext w)) = this (snd (refreshPool ext w0)).
Proof.
  rewrite freshness_gate_spec.
  destruct (use_iam_auth ext); [|left; reflexivity].
  destruct (tokenExpiryTime (this w)) as [expiry|].
  - destruct (expiry =? 0)%Z.
    + right. eexists. split; [|reflexivity]. reflexivity.
    + destruct (Date_now ext (now_calls w) >=? expiry - 60000)%Z.
      * right. eexists. split; [|reflexivity]. reflexivity.
      * left. reflexivity.
  - right. eexists. split; [|reflexivity]. reflexivity.
Qed.

Lemma this_after_query (ext : Externals) (sql : string) (params : list string)
    (w : World) :
  this (snd (query ext sql params w)) = this w \/
  this (snd (query ext sql params w)) = this (snd (freshness_gate ext w)).
Proof.
  rewrite query_spec.
  destruct (pool (this w)); [|left; reflexivity].
  destruct (freshness_gate ext w) as [[[]|e] w1]; [|right; reflexivity].
  destruct (pool (this w1)); right; reflexivity.
Qed.

Lemma this_after_getConnection (ext : Externals) (w : World) :
  this (snd (getConnection ext w)) = this w \/
  this (snd (getConnection ext w)) = this (snd (freshness_gate ext w)).
Proof.
  rewrite getConnection_spec.
  destruct (pool (this w)); [|left; reflexivity].
  destruct (freshness_gate ext w) as [[[]|e] w1]; [|right; reflexivity].
  destruct (pool (this w1)) as [p1|]; [|right; reflexivity].
  unfold pool_getConnection.
  destruct (Pool_getConnection ext (getConnection_calls w1));
    right; reflexivity.
Qed.

Lemma this_after_intervalCallback (ext : Externals) (w : World) :
  this (snd (intervalCallback ext w)) = this (snd (refreshPool ext w)).
Proof.
  rewrite intervalCallback_spec.
  destruct (refreshPool ext w) as [[[]|e] w1]; reflexivity.
Qed.

(** Every call leaves the manager's fields as found, or as [initialize],
    [refreshPool] or [shutdown] leaves them from the fields found. *)
Lemma this_after_call (ext : Externals) (c : Call) (w : World) :
  this (run_call ext c w) = this w \/
  exists w0, this w0 = this w /\
    (this (run_call ext c w) = this (snd (initialize ext w0)) \/
     this (run_call ext c w) = this (snd (refreshPool ext w0)) \/
     this (run_call ext c w) = this (snd (shutdown ext w0))).
Proof.
  destruct c; cbn [run_call].
  - right. exists w. auto.
  - right. exists w. auto.
  - destruct (this_after_getConnection ext w) as [H|H]; [left; exact H|].
    rewrite H.
    destruct (this_after_gate ext w) as [G|[w0 [G0 G]]]; [left; exact G|].
    right. exists w0. auto.
  - destruct (this_after_query ext sql params w) as [H|H]; [left; exact H|].
    rewrite H.
    destruct (this_after_gate ext w) as [G|[w0 [G0 G]]]; [left; exact G|].
    right. exists w0. auto.
  - right. exists w. auto.
  - destruct (timers w); [left; reflexivity|].
    right. exists w. rewrite this_after_intervalCallback. auto.
Qed.

(* ===================================================================== *)
(** ** The credential invariant over sessions *)
(* ===================================================================== *)

Lemma credential_present_same_fields (ext : Externals) (w1 w2 : World) :
  this w2 = this w1 -> credential_present ext w1 -> credential_present ext w2.
Proof. unfold credential_present. intros ->. auto. Qed.

Lemma credential_invariant_same_fields (ext : Externals) (w1 w2 : World) :
  this w2 = this w1 -> credential_invariant ext w1 -> credential_invariant ext w2.
Proof. unfold credential_invariant. intros ->. auto. Qed.

Lemma credential_present_initialize (ext : Externals) (w : World) :
  credential_present ext w -> credential_present ext (snd (initialize ext w)).
Proof.
  unfold credential_present. intros Inv Hmode.
  destruct (initialize ext w) as [r w'] eqn:Hrun.
  js_exec Hrun; present_finish Inv.
Qed.

Lemma credential_present_refreshPool (ext : Externals) (w : World) :
  credential_present ext w -> credential_present ext (snd (refreshPool ext w)).
Proof.
  unfold credential_present. intros Inv Hmode.
  destruct (refreshPool ext w) as [r w'] eqn:Hrun.
  js_exec Hrun; present_finish Inv.
Qed.

Lemma credential_present_shutdown (ext : Externals) (w : World) :
  credential_present ext w -> credential_present ext (snd (shutdown ext w)).
Proof.
  unfold credential_present. intros Inv Hmode.
  destruct (shutdown ext w) as [r w'] eqn:Hrun.
  js_exec Hrun; present_finish Inv.
Qed.

Lemma credential_present_step (ext : Externals) (c : Call) (w : World) :
  credential_present ext w -> credential_present ext (run_call ext c w).
Proof.
  intros Inv.
  destruct (this_after_call ext c w) as [H|[w0 [H0 [H|[H|H]]]]].
  - exact (credential_present_same_fields _ _ _ H Inv).
  - apply (credential_present_same_fields _ _ _ H).
    apply credential_present_initialize.
    exact (credential_present_same_fields _ _ _ H0 Inv).
  - apply (credential_present_same_fields _ _ _ H).
    apply credential_present_refreshPool.
    exact (credential_present_same_fields _ _ _ H0 Inv).
  - apply (credential_present_same_fields _ _ _ H).
    apply credential_present_shutdown.
    exact (credential_present_same_fields _ _ _ H0 Inv).
Qed.

Lemma credential_invariant_initialize (ext : Externals) (w : World) :
  dependable ext ->
  credential_invariant ext w ->
  credential_invariant ext (snd (initialize ext w)).
Proof.
  unfold credential_invariant. intros (Dend & Dcreate & Dsign) Inv Hmode.
  specialize (Inv Hmode).
  destruct (initialize ext w) as [r w'] eqn:Hrun.
  js_exec Hrun; invariant_finish Inv.
Qed.

Lemma credential_invariant_refreshPool (ext : Externals) (w : World) :
  dependable ext ->
  credential_invariant ext w ->
  credential_invariant ext (snd (refreshPool ext w)).
Proof.
  unfold credential_invariant. intros (Dend & Dcreate & Dsign) Inv Hmode.
  specialize (Inv Hmode).
  destruct (refreshPool ext w) as [r w'] eqn:Hrun.
  js_exec Hrun; invariant_finish Inv.
Qed.

Lemma credential_invariant_shutdown (ext : Externals) (w : World) :
  dependable ext ->
  credential_invariant ext w ->
  credential_invariant ext (snd (shutdown ext w)).
Proof.
  unfold credential_invariant. intros (Dend & Dcreate & Dsign) Inv Hmode.
  specialize (Inv Hmode).
  destruct (shutdown ext w) as [r w'] eqn:Hrun.
  js_exec Hrun; invariant_finish Inv.
Qed.

Lemma credential_invariant_step (ext : Externals) (c : Call) (w : World) :
  dependable ext ->
  credential_invariant ext w -> credential_invariant ext (run_call ext c w).
Proof.
  intros Hdep Inv.
  destruct (this_after_call ext c w) as [H|[w0 [H0 [H|[H|H]]]]].
  - exact (credential_invariant_same_fields _ _ _ H Inv).
  - apply (credential_invariant_same_fields _ _ _ H).
    apply credential_invariant_initialize; [exact Hdep|].
    exact (credential_invariant_same_fields _ _ _ H0 Inv).
  - apply (credential_invariant_same_fields _ _ _ H).
    apply credential_invariant_refreshPool; [exact Hdep|].
    exact (credential_invariant_same_fields _ _ _ H0 Inv).
  - apply (credential_invariant_same_fields _ _ _ H).
    apply credential_invariant_shutdown; [exact Hdep|].
    exact (credential_invariant_same_fields _ _ _ H0 Inv).
Qed.

Lemma run_calls_invariant (ext : Externals) (I : World -> Prop) :
  (forall c w, I w -> I (run_call ext c w)) ->
  forall cs w, I w -> I (run_calls ext cs w).
Proof.
  intros Hstep cs. induction cs as [|c cs IH]; intros w Hw; cbn.
  - exact Hw.
  - apply IH. apply Hstep. exact Hw.
Qed.

(** A rotation that returns leaves the token it acquired next to the pool
    it built with it, whatever it found. *)
Lemma refreshPool_establishes (ext : Externals) (w : World) :
  fst (refreshPool ext w) = Normal tt ->
  credential_invariant ext (snd (refreshPool ext w)).
Proof.
  unfold credential_invariant. intros Hok Hmode.
  destruct (refreshPool ext w) as [r w'] eqn:Hrun.
  js_exec Hrun; cbn [fst snd] in *; try discriminate Hok; established_finish.
Qed.

Lemma initialize_establishes (ext : Externals) (w : World) :
  fst (initialize ext w) = Normal tt ->
  credential_invariant ext (snd (initialize ext w)).
Proof.
  unfold credential_invariant. intros Hok Hmode.
  destruct (initialize ext w) as [r w'] eqn:Hrun.
  js_exec Hrun; cbn [fst snd] in *; try discriminate Hok; established_finish.
Qed.

Lemma refreshPool_keeps (ext : Externals) (w : World) :
  answering ext w ->
  credential_invariant ext w ->
  credential_invariant ext (snd (refreshPool ext w)).
Proof.
  unfold credential_invariant. intros (Dend & Dcreate & Dsign) Inv Hmode.
  specialize (Inv Hmode).
  destruct (refreshPool ext w) as [r w'] eqn:Hrun.
  js_exec Hrun; kept_finish Inv.
Qed.

Lemma initialize_keeps (ext : Externals) (w : World) :
  answering ext w ->
  credential_invariant ext w ->
  credential_invariant ext (snd (initialize ext w)).
Proof.
  unfold credential_invariant. intros (Dend & Dcreate & Dsign) Inv Hmode.
  specialize (Inv Hmode).
  destruct (initialize ext w) as [r w'] eqn:Hrun.
  js_exec Hrun; kept_finish Inv.
Qed.

Lemma shutdown_keeps (ext : Externals) (w : World) :
  credential_invariant ext w ->
  credential_invariant ext (snd (shutdown ext w)).
Proof.
  unfold credential_invariant. intros Inv Hmode.
  specialize (Inv Hmode).
  destruct (shutdown ext w) as [r w'] eqn:Hrun.
  js_exec Hrun; kept_finish Inv.
Qed.

(** The stale gate keeps the invariant under the same conditions as the
    rotation it runs. *)
Lemma freshness_gate_keeps (ext : Externals) (w : World) :
  fst (freshness_gate ext w) = Normal tt \/ answering ext w ->
  credential_invariant ext w ->
  credential_invariant ext (snd (freshness_gate ext w)).
Proof.
  intros Hkeep Inv.
  assert (Hrot : forall wg,
            this wg = this w ->
            signer_calls wg = signer_calls w ->
            end_calls wg = end_calls w ->
            createPool_calls wg = createPool_calls w ->
            fst (refreshPool ext wg) = Normal tt \/ answering ext w ->
            credential_invariant ext (snd (refreshPool ext wg))).
  { intros wg Hthis Hs He Hc [Hok | (Dend & Dcreate & Dsign)].
    - apply refreshPool_establishes. exact Hok.
    - apply refreshPool_keeps.
      + unfold answering. rewrite Hs, He, Hc. auto.
      + exact (credential_invariant_same_fields _ _ _ Hthis Inv). }
  rewrite freshness_gate_spec in *.
  destruct (use_iam_auth ext); [|exact Inv].
  destruct (tokenExpiryTime (this w)) as [expiry|].
  - destruct (expiry =? 0)%Z.
    + apply Hrot; auto.
    + destruct (Date_now ext (now_calls w) >=? expiry - 60000)%Z.
      * apply Hrot; auto.
      * exact Inv.
  - apply Hrot; auto.
Qed.

Lemma query_keeps (ext : Externals) (sql : string) (params : list string)
    (w : World) :
  (exists rows, fst (query ext sql params w) = Normal rows)
  \/ answering ext w ->
  credential_invariant ext w ->
  credential_invariant ext (snd (query ext sql params w)).
Proof.
  intros Hkeep Inv. rewrite query_spec in *.
  destruct (pool (this w)); [|exact Inv].
  assert (Hg : credential_invariant ext (snd (freshness_gate ext w))).
  { apply freshness_gate_keeps; [|exact Inv].
    destruct Hkeep as [[rows Hok] | Hans]; [left | right; exact Hans].
    destruct (freshness_gate ext w) as [[[]|e] w1]; [reflexivity|].
    discriminate Hok. }
  destruct (freshness_gate ext w) as [[[]|e] w1]; cbn [fst snd] in *;
    [|exact Hg].
  destruct (pool (this w1)); exact Hg.
Qed.

Lemma getConnection_keeps (ext : Externals) (w : World) :
  (exists conn, fst (getConnection ext w) = Normal conn)
  \/ answering ext w ->
  credential_invariant ext w ->
  credential_invariant ext (snd (getConnection ext w)).
Proof.
  intros Hkeep Inv. rewrite getConnection_spec in *.
  destruct (pool (this w)); [|exact Inv].
  assert (Hg : credential_invariant ext (snd (freshness_gate ext w))).
  { apply freshness_gate_keeps; [|exact Inv].
    destruct Hkeep as [[conn Hok] | Hans]; [left | right; exact Hans].
    destruct (freshness_gate ext w) as [[[]|e] w1]; [reflexivity|].
    discriminate Hok. }
  destruct (freshness_gate ext w) as [[[]|e] w1]; cbn [fst snd] in *;
    [|exact Hg].
  destruct (pool (this w1)); [|exact Hg].
  unfold pool_getConnection.
  destruct (Pool_getConnection ext (getConnection_calls w1)); exact Hg.
Qed.

(** One call of a session keeps the invariant when it is [shutdown], when
    it returns, or when the collaborators answer during it. *)
Lemma credential_invariant_kept (ext : Externals) (c : Call) (w : World) :
  keeps_credential ext c w ->
  credential_invariant ext w ->
  credential_invariant ext (run_call ext c w).
Proof.
  intros [-> | Hkeep] Inv; [apply shutdown_keeps; exact Inv|].
  destruct c; cbn [run_call call_returns] in *.
  - destruct Hkeep as [Hok | Hans].
    + apply initialize_establishes. exact Hok.
    + apply initialize_keeps; assumption.
  - destruct Hkeep as [Hok | Hans].
    + apply refreshPool_establishes. exact Hok.
    + apply refreshPool_keeps; assumption.
  - apply getConnection_keeps; assumption.
  - apply query_keeps; assumption.
  - apply shutdown_keeps. exact Inv.
  - destruct (timers w); [exact Inv|].
    apply (credential_invariant_same_fields _ _ _
             (this_after_intervalCallback ext w)).
    destruct Hkeep as [[Hnil | Hok] | Hans].
    + discriminate Hnil.
    + apply refreshPool_establishes. exact Hok.
    + apply refreshPool_keeps; assumption.
Qed.

Lemma undisturbed_session (ext : Externals) (cs : list Call) :
  forall w, undisturbed ext cs w -> credential_invariant ext w ->
    credential_invariant ext (run_calls ext cs w).
Proof.
  induction cs as [|c cs IH]; intros w Hcs Inv; cbn in *.
  - exact Inv.
  - destruct Hcs as [Hc Hcs]. apply IH; [exact Hcs|].
    apply credential_invariant_kept; assumption.
Qed.

(** The state a rotation is in while it awaits [end()] on the old pool: the
    new token is stored, the old pool installed.  Calls that start while a
    rotation is suspended there find the invariant broken; sessions made of
    calls that run one after the other never observe this state. *)
Lemma rotation_in_flight (ext : Externals) (w : World) (old : Pool)
    (t : string) :
  use_iam_auth ext = true ->
  pool (this w) = Some old ->
  Signer_getAuthToken ext (signer_calls w) = Normal t ->
  ~ built_with old t ->
  ~ credential_invariant ext (snd (generateAuthToken ext w)).
Proof.
  intros Hmode Hpool Hsigner Hother Inv.
  unfold credential_invariant in Inv. specialize (Inv Hmode).
  destruct (generateAuthToken ext w) as [r w'] eqn:Hrun.
  js_unfold_in Hrun. cbn in Hrun. rewrite Hsigner in Hrun. cbn in Hrun.
  injection Hrun as <- <-. cbn in Inv.
  destruct (Inv old Hpool) as (tok & Htok & Hbuilt).
  injection Htok as <-. exact (Hother Hbuilt).
Qed.

(** C2, as stated, fails: in token mode, [initialize()] installs pool 0 built
    with "token-A"; a rotation then stores "token-B" and, [end()] of pool 0
    rejecting, throws before a new pool is installed.  Pool 0 is installed,
    the stored token is "token-B". *)
Lemma credential_invariant_counterexample :
  ~ credential_invariant Scenario.close_fails
      (run_calls Scenario.close_fails [Initialize; RefreshPool]
         (initial_world Scenario.close_fails)).
Proof.
  intros H.
  assert (Hmode : use_iam_auth Scenario.close_fails = true)
    by (vm_compute; reflexivity).
  assert (Hpool : pool (this (run_calls Scenario.close_fails
                                [Initialize; RefreshPool]
                                (initial_world Scenario.close_fails)))
                  = Some (Scenario.first_pool Scenario.close_fails "token-A"))
    by (vm_compute; reflexivity).
  destruct (H Hmode _ Hpool) as [tok [Htok [Hpw _]]].
  vm_compute in Htok. vm_compute in Hpw. congruence.
Qed.

(** C2, amended.  Sessions are sequences of [initialize], [refreshPool],
    [getConnection], [query], [shutdown] calls and timer ticks on a fresh
    manager, each run to its end before the next begins; the states meant
    are those between two calls.  In every such state, whatever the
    collaborators answer: in token mode, if a pool is installed then a token
    is stored.  That token is the one the installed pool was built with
    - when the collaborators are [dependable];
    - right after an [initialize] or a [refreshPool] that returned, whatever
      happened before;
    - and from any state where it holds, after any further calls each of
      which is [shutdown], returns, or finds the collaborators [answering]:
      only a call that throws after a rejected [end()], a throwing
      [mysql.createPool] or an empty token can separate the stored token
      from the installed pool. *)
Theorem credential_invariant_reachable (ext : Externals) (cs : list Call) :
  let w := run_calls ext cs (initial_world ext) in
  credential_present ext w /\
  (dependable ext -> credential_invariant ext w) /\
  (fst (initialize ext w) = Normal tt ->
   credential_invariant ext (snd (initialize ext w))) /\
  (fst (refreshPool ext w) = Normal tt ->
   credential_invariant ext (snd (refreshPool ext w))) /\
  (forall cs',
     credential_invariant ext w -> undisturbed ext cs' w ->
     credential_invariant ext (run_calls ext cs' w)) /\
  (undisturbed ext cs (initial_world ext) -> credential_invariant ext w).
Proof.
  cbv zeta.
  split; [|split; [|split; [|split; [|split]]]].
  - apply run_calls_invariant.
    + intros c w. apply credential_present_step.
    + intros _ Hpool. exfalso. apply Hpool. reflexivity.
  - intros Hdep. apply run_calls_invariant.
    + intros c w. apply credential_invariant_step. exact Hdep.
    + intros _ p Hp. discriminate Hp.
  - apply initialize_establishes.
  - apply refreshPool_establishes.
  - intros cs' Inv Hcs. apply undisturbed_session; assumption.
  - intros Hcs. apply undisturbed_session; [exact Hcs|].
    intros _ p Hp. discriminate Hp.
Qed.

Lemma dependable_healthy : dependable Scenario.healthy.
Proof.
  repeat split; intros n; try reflexivity.
  destruct n as [|[|n]]; discriminate.
Defined.

Lemma credential_invariant_reachable_witness :
  credential_invariant Scenario.healthy
    (run_calls Scenario.healthy
       [Initialize; Query "SELECT 1" []; RefreshPool; IntervalTick]
       (initial_world Scenario.healthy)) /\
  credential_invariant Scenario.close_fails
    (snd (refreshPool Scenario.close_fails
            (run_calls Scenario.close_fails [Initialize; RefreshPool]
               (initial_world Scenario.close_fails)))).
Proof.
  assert (Hok : fst (refreshPool Scenario.close_fails
                       (run_calls Scenario.close_fails
                          [Initialize; RefreshPool]
                          (initial_world Scenario.close_fails))) = Normal tt)
    by (vm_compute; reflexivity).
  split.
  - exact (proj1 (proj2 (credential_invariant_reachable Scenario.healthy _))
             dependable_healthy).
  - exact (proj1 (proj2 (proj2 (proj2
             (credential_invariant_reachable Scenario.close_fails
                [Initialize; RefreshPool])))) Hok).
Defined.

(* ===================================================================== *)
(** ** Rotation: failure to create the pool *)
(* ===================================================================== *)




(* ===================================================================== *)
(** ** Expiry of the stored token *)
(* ===================================================================== *)

Lemma isTokenExpired_unset (ext : Externals) (w : World) :
  tokenExpiryTime (this w) = None -> isTokenExpired ext w = (Normal true, w).
Proof.
  intros H. unfold isTokenExpired, get_this, bind, ret. rewrite H. reflexivity.
Qed.

Lemma isTokenExpired_set (ext : Externals) (w : World) (expiry : Z) :
  tokenExpiryTime (this w) = Some expiry ->
  expiry <> 0%Z ->
  fst (isTokenExpired ext w)
  = Normal (Date_now ext (now_calls w) >=? expiry - 60000)%Z.
Proof.
  intros H Hnz. unfold isTokenExpired, get_this, date_now, bind, ret.
  rewrite H. apply Z.eqb_neq in Hnz. rewrite Hnz. reflexivity.
Qed.

(** C6.  With no expiry stored, as in a manager that never generated a
    token, [isTokenExpired] answers true.  A successful [generateAuthToken]
    at clock reading [issued] (on or after the epoch) stores
    [issued + (15 min - 1 min)] as expiry; from then on, while that expiry
    is stored, [isTokenExpired] answers true exactly when the clock it reads
    shows at least the expiry minus one minute, and so answers false if the
    clock still shows [issued]. *)
Theorem isTokenExpired_spec (ext : Externals) :
  (forall w, tokenExpiryTime (this w) = None ->
     isTokenExpired ext w = (Normal true, w)) /\
  isTokenExpired ext (initial_world ext) = (Normal true, initial_world ext) /\
  (forall w tok,
     Signer_getAuthToken ext (signer_calls w) = Normal tok ->
     (0 <= Date_now ext (now_calls w))%Z ->
     let issued := Date_now ext (now_calls w) in
     let expiresAt := (issued + (15 * 60 * 1000 - 1 * 60 * 1000))%Z in
     let w' := snd (generateAuthToken ext w) in
     fst (generateAuthToken ext w) = Normal tok /\
     currentToken (this w') = Some tok /\
     tokenExpiryTime (this w') = Some expiresAt /\
     forall w'', this w'' = this w' ->
       let now := Date_now ext (now_calls w'') in
       exists b,
         fst (isTokenExpired ext w'') = Normal b /\
         (b = true <-> (now >= expiresAt - 1 * 60 * 1000)%Z) /\
         (now = issued -> b = false)).
Proof.
  split; [exact (isTokenExpired_unset ext)|].
  split; [apply isTokenExpired_unset; reflexivity|].
  intros w tok Hsign Hclock issued expiresAt w'.
  assert (Hrun : generateAuthToken ext w
                 = (Normal tok,
                    log_event
                      (ConsoleLog [Str "New token generated, expires at:";
                                   IsoDate (issued + 14 * 60 * 1000)])
                      (set_this
                         (with_tokenExpiryTime
                            (Some (issued + 14 * 60 * 1000)%Z))
                         (tick_now
                            (log_event DateNow
                               (set_this (with_currentToken (Some tok))
                                  (tick_signer
                                     (log_event SignerGetAuthToken
                                        (log_event
                                           (ConsoleLog
                                              [Str "Generating new RDS IAM authentication token..."])
                                           w))))))))).
  { unfold generateAuthToken, signer_getAuthToken, date_now, console_log,
      modify_this, bind, ret. cbn. rewrite Hsign. reflexivity. }
  subst w'. rewrite Hrun. cbn [fst snd].
  split; [reflexivity|]. split; [reflexivity|]. split; [reflexivity|].
  intros w'' Hsame. cbv zeta. set (now := Date_now ext (now_calls w'')).
  assert (Hexp : tokenExpiryTime (this w'') = Some expiresAt).
  { rewrite Hsame. reflexivity. }
  exists (now >=? expiresAt - 60000)%Z.
  split; [|split].
  - apply isTokenExpired_set; [exact Hexp|]. subst expiresAt issued. lia.
  - change (1 * 60 * 1000)%Z with 60000%Z. rewrite Z.geb_le. lia.
  - intros Hnow. rewrite Z.geb_leb. apply Z.leb_gt. subst expiresAt. lia.
Qed.

Lemma isTokenExpired_spec_witness :
  fst (generateAuthToken Scenario.healthy (initial_world Scenario.healthy))
  = Normal "token-A".
Proof.
  assert (Hs : Signer_getAuthToken Scenario.healthy
                 (signer_calls (initial_world Scenario.healthy))
               = Normal "token-A") by reflexivity.
  assert (Hc : (0 <= Date_now Scenario.healthy
                       (now_calls (initial_world Scenario.healthy)))%Z)
    by (vm_compute; discriminate).
  exact (proj1 (proj2 (proj2 (isTokenExpired_spec Scenario.healthy))
                  _ _ Hs Hc)).
Defined.

(* ===================================================================== *)
(** ** Password mode *)
(* ===================================================================== *)

Lemma freshness_gate_password (ext : Externals) (w : World) :
  use_iam_auth ext = false -> freshness_gate ext w = (Normal tt, w).
Proof. intros H. rewrite freshness_gate_spec, H. reflexivity. Qed.

(** C10.  When [USE_IAM_AUTH] is not 'true', [query] and [getConnection] on
    an installed pool are the pool's own [query] and [getConnection] and
    nothing more, whatever expiry is stored: the only event is the call on the
    pool, so the signer is not called, the clock is not read
    ([isTokenExpired] is not evaluated) and no rotation starts; and no field
    of the manager changes, [currentToken] and [tokenExpiryTime] included. *)
Theorem password_mode_no_rotation (ext : Externals) (w : World)
    (sql : string) (params : list string) :
  use_iam_auth ext = false ->
  query ext sql params w =
    match pool (this w) with
    | Some p => pool_query ext p sql params w
    | None => (Throw not_initialized, w)
    end /\
  getConnection ext w =
    match pool (this w) with
    | Some p => pool_getConnection ext p w
    | None => (Throw not_initialized, w)
    end /\
  this (snd (query ext sql params w)) = this w /\
  this (snd (getConnection ext w)) = this w /\
  (forall p, pool (this w) = Some p ->
     events_since w (snd (query ext sql params w))
       = [PoolQuery (pool_id p) sql params] /\
     events_since w (snd (getConnection ext w))
       = [PoolGetConnection (pool_id p)]) /\
  (forall evs,
     evs = events_since w (snd (query ext sql params w)) \/
     evs = events_since w (snd (getConnection ext w)) ->
     existsb is_SignerGetAuthToken evs = false /\
     existsb is_DateNow evs = false /\
     count_rotations evs = 0).
Proof.
  intros Hmode.
  assert (Hq : query ext sql params w =
               match pool (this w) with
               | Some p => pool_query ext p sql params w
               | None => (Throw not_initialized, w)
               end).
  { rewrite query_spec, freshness_gate_password by exact Hmode.
    destruct (pool (this w)); reflexivity. }
  assert (Hg : getConnection ext w =
               match pool (this w) with
               | Some p => pool_getConnection ext p w
               | None => (Throw not_initialized, w)
               end).
  { rewrite getConnection_spec, freshness_gate_password by exact Hmode.
    destruct (pool (this w)); reflexivity. }
  rewrite Hq, Hg.
  split; [reflexivity|]. split; [reflexivity|].
  unfold pool_query, pool_getConnection.
  destruct (pool (this w)) as [p|];
    destruct (Pool_getConnection ext (getConnection_calls w));
    cbn [fst snd]; trace_norm.
  all: split; [reflexivity|]; split; [reflexivity|].
  all: split;
    [ intros p0 Hp0; try discriminate Hp0; injection Hp0 as <-;
      split; reflexivity
    | intros evs [-> | ->]; repeat split; reflexivity ].
Qed.

Lemma password_mode_no_rotation_witness :
  this (snd (query Scenario.static_password "SELECT 1" []
               (Scenario.initialized Scenario.static_password)))
  = this (Scenario.initialized Scenario.static_password).
Proof.
  assert (Hm : use_iam_auth Scenario.static_password = false)
    by (vm_compute; reflexivity).
  exact (proj1 (proj2 (proj2
           (password_mode_no_rotation Scenario.static_password
              (Scenario.initialized Scenario.static_password)
              "SELECT 1" [] Hm)))).
Defined.

(* ===================================================================== *)
(** ** Shutdown *)
(* ===================================================================== *)

Lemma disarmed (h : TimerId) (l : list TimerId) :
  ~ In h (filter (fun h' => negb (Nat.eqb h' h)) l).
Proof.
  intros Hin. apply filter_In in Hin. destruct Hin as [_ Hneq].
  rewrite Nat.eqb_refl in Hneq. discriminate Hneq.
Qed.

Lemma shutdown_cleared (ext : Externals) (v : World) :
  pool (this v) = None ->
  tokenRefreshInterval (this v) = None ->
  shutdown ext v
  = (Normal tt,
     log_event
       (ConsoleLog [Str "RDS IAM Auth Manager shut down successfully"])
       (log_event
          (ConsoleLog [Str "Shutting down RDS IAM Auth Manager..."]) v)).
Proof.
  intros Hp Ht. js_unfold. cbn. rewrite Ht. cbn. rewrite Hp. reflexivity.
Qed.

Lemma shutdown_cleared_idle (ext : Externals) (v : World) :
  pool (this v) = None ->
  tokenRefreshInterval (this v) = None ->
  shutdown_idle ext v.
Proof.
  intros Hp Ht. unfold shutdown_idle.
  rewrite (shutdown_cleared ext v Hp Ht). cbn [fst snd].
  repeat split.
  apply events_since_app. cbn. rewrite <- app_assoc. reflexivity.
Qed.

(** C8, as stated, fails: after [initialize()], a [shutdown()] whose
    [pool.end()] rejects throws, and the pool stays installed. *)
Lemma shutdown_counterexample :
  ~ shutdown_clears Scenario.close_fails
      (Scenario.initialized Scenario.close_fails).
Proof.
  intros [Hret _]. vm_compute in Hret. discriminate Hret.
Qed.

(** C8, amended.  [shutdown()] always leaves the timer handle null, with the
    timer it held disarmed, and it calls [clearInterval] before [pool.end()].
    It returns normally, leaving [pool] null, when no pool is installed (so
    also on a manager never initialized) and when [end()] of the installed
    pool resolves; a second [shutdown()] after such a return is idle: it prints
    its two messages and returns.  When [end()] rejects with [e], [shutdown()]
    throws [e] without logging it through [console.error], and the pool stays
    installed. *)
Theorem shutdown_spec (ext : Externals) (w : World) :
  let r := shutdown ext w in
  let w' := snd r in
  let evs := events_since w w' in
  tokenRefreshInterval (this w') = None /\
  (forall h, tokenRefreshInterval (this w) = Some h ->
     ~ In h (timers w') /\
     existsb is_ClearInterval evs = true /\
     (forall q, occurs_before (is_PoolEnd q) is_ClearInterval evs = false) /\
     (forall p, pool (this w) = Some p ->
        occurs_before is_ClearInterval (is_PoolEnd (pool_id p)) evs = true)) /\
  (pool (this w) = None ->
     fst r = Normal tt /\ pool (this w') = None /\ ended w' = ended w) /\
  (forall p, pool (this w) = Some p ->
     Pool_end ext (end_calls w) = None ->
     fst r = Normal tt /\ pool (this w') = None /\
     In (pool_id p) (ended w')) /\
  (forall p e, pool (this w) = Some p ->
     Pool_end ext (end_calls w) = Some e ->
     fst r = Throw e /\ pool (this w') = Some p /\
     existsb is_ConsoleError evs = false) /\
  fst (shutdown ext (initial_world ext)) = Normal tt /\
  (fst r = Normal tt -> shutdown_idle ext w').
Proof.
  intros r w' evs. subst evs w' r.
  assert (Hinit : fst (shutdown ext (initial_world ext)) = Normal tt)
    by (rewrite shutdown_cleared; reflexivity).
  assert (Hagain : fst (shutdown ext w) = Normal tt ->
                   shutdown_idle ext (snd (shutdown ext w))).
  { intros Hok. apply shutdown_cleared_idle.
    - destruct (shutdown ext w) as [r w'] eqn:Hrun.
      js_exec Hrun; try discriminate Hok; reflexivity || assumption.
    - destruct (shutdown ext w) as [r w'] eqn:Hrun.
      js_exec Hrun; try discriminate Hok; reflexivity || assumption. }
  destruct (shutdown ext w) as [r w'] eqn:Hrun.
  js_exec Hrun; cbn [fst snd]; trace_norm; rewrite ?Nat.eqb_refl; cbn.
  all: split; [first [reflexivity | assumption]|].
  all: split;
    [ intros h0 Hh0; try discriminate Hh0;
      try (injection Hh0 as <-;
           split; [apply disarmed|];
           split; [reflexivity|];
           split; [intros q; rewrite ?Bool.andb_false_r; reflexivity|];
           intros p0 Hp0; try discriminate Hp0; injection Hp0 as <-;
           rewrite ?Nat.eqb_refl; reflexivity)
    | ].
  all: split;
    [ intros Hp; try discriminate Hp; repeat split; assumption |].
  all: split;
    [ intros p0 Hp0 He0; try discriminate Hp0; try discriminate He0;
      try (injection Hp0 as <-; repeat split; left; reflexivity)
    | ].
  all: split;
    [ intros p0 e0 Hp0 He0; try discriminate Hp0; try discriminate He0;
      try (injection Hp0 as <-; injection He0 as <-; repeat split;
           assumption)
    | ].
  all: split; [ exact Hinit | exact Hagain ].
Qed.

Lemma shutdown_spec_witness :
  fst (shutdown Scenario.healthy (Scenario.initialized Scenario.healthy))
  = Normal tt.
Proof.
  assert (Hp : pool (this (Scenario.initialized Scenario.healthy))
               = Some (Scenario.first_pool Scenario.healthy "token-A"))
    by (vm_compute; reflexivity).
  assert (He : Pool_end Scenario.healthy
                 (end_calls (Scenario.initialized Scenario.healthy)) = None)
    by reflexivity.
  exact (proj1 (proj1 (proj2 (proj2 (proj2
           (shutdown_spec Scenario.healthy
              (Scenario.initialized Scenario.healthy))))) _ Hp He)).
Defined.

(* ===================================================================== *)
(** ** What a rotation leaves alone *)
(* ===================================================================== *)

(** A rotation touches neither the timers nor the timer handle; among its
    events there is its own announcement once, and no [setInterval],
    [clearInterval] or [pool.query].  When it completes, the pool installed
    is the one its call of [mysql.createPool] returned. *)
Lemma refreshPool_frame (ext : Externals) (w : World) :
  exists evs,
    trace (snd (refreshPool ext w)) = trace w ++ evs /\
    timers (snd (refreshPool ext w)) = timers w /\
    tokenRefreshInterval (this (snd (refreshPool ext w)))
      = tokenRefreshInterval (this w) /\
    existsb is_SetInterval evs = false /\
    existsb is_ClearInterval evs = false /\
    existsb is_PoolQuery evs = false /\
    count_rotations evs = 1 /\
    (fst (refreshPool ext w) = Normal tt ->
     exists new,
       pool (this (snd (refreshPool ext w))) = Some new /\
       pool_id new = createPool_calls w).
Proof.
  destruct (refreshPool ext w) as [r w'] eqn:Hrun.
  js_exec Hrun; cbn [fst snd]; eexists;
    (split; [cbn; rewrite <- ?app_assoc; reflexivity|]);
    cbn; repeat split; intros Hok; try discriminate Hok;
    eexists; split; reflexivity.
Qed.

(* ===================================================================== *)
(** ** The refresh scheduler *)
(* ===================================================================== *)

(** What [initialize()] does about the timer. *)
Lemma initialize_scheduler (ext : Externals) (w : World) :
  exists evs,
    trace (snd (initialize ext w)) = trace w ++ evs /\
    existsb (is_SetInterval_other_than refreshInterval) evs = false /\
    (use_iam_auth ext = false ->
     existsb is_SetInterval evs = false /\
     timers (snd (initialize ext w)) = timers w /\
     tokenRefreshInterval (this (snd (initialize ext w)))
       = tokenRefreshInterval (this w)) /\
    (use_iam_auth ext = true ->
     fst (initialize ext w) = Normal tt ->
     tokenRefreshInterval (this (snd (initialize ext w)))
       = Some (timers_created w) /\
     In (timers_created w) (timers (snd (initialize ext w))) /\
     In (SetInterval (timers_created w) refreshInterval) evs).
Proof.
  destruct (initialize ext w) as [r w'] eqn:Hrun.
  js_exec Hrun; cbn [fst snd]; eexists;
    (split; [cbn; rewrite <- ?app_assoc; reflexivity|]);
    cbn; (split; [reflexivity|]);
    (split; [intros Hmode; try discriminate Hmode; repeat split|]);
    intros Hmode Hok; try discriminate Hmode; try discriminate Hok;
    (split; [reflexivity|]); (split; [left; reflexivity|]); in_trace.
Qed.

Lemma no_scheduler_extend (w w' : World) (evs : list Event) :
  no_scheduler w ->
  trace w' = trace w ++ evs ->
  existsb is_SetInterval evs = false ->
  timers w' = timers w ->
  tokenRefreshInterval (this w') = tokenRefreshInterval (this w) ->
  no_scheduler w'.
Proof.
  intros (Ht & Hh & Htr) Htrace Hevs Htimers Hhandle.
  unfold no_scheduler.
  rewrite Htimers, Hhandle, Htrace, existsb_app, Htr, Hevs. auto.
Qed.

Lemma no_scheduler_shutdown (ext : Externals) (w : World) :
  no_scheduler w -> no_scheduler (snd (shutdown ext w)).
Proof.
  intros Hno. pose proof Hno as (Ht & Hh & Htr).
  destruct (shutdown ext w) as [r w'] eqn:Hrun.
  js_exec Hrun; cbn [snd];
    (eapply (no_scheduler_extend w);
     [ exact Hno | cbn; rewrite <- ?app_assoc; reflexivity
     | reflexivity | reflexivity | cbn; congruence ]).
Qed.

Lemma no_scheduler_step (ext : Externals) (c : Call) (w : World) :
  use_iam_auth ext = false ->
  no_scheduler w -> no_scheduler (run_call ext c w).
Proof.
  intros Hmode Hno. destruct c; cbn [run_call].
  - destruct (initialize_scheduler ext w) as (evs & Htr & _ & Hpw & _).
    destruct (Hpw Hmode) as (Hevs & Ht & Hh).
    exact (no_scheduler_extend _ _ _ Hno Htr Hevs Ht Hh).
  - destruct (refreshPool_frame ext w) as (evs & Htr & Ht & Hh & Hevs & _).
    exact (no_scheduler_extend _ _ _ Hno Htr Hevs Ht Hh).
  - rewrite getConnection_spec, freshness_gate_password by exact Hmode.
    destruct (pool (this w)) as [p|]; [|exact Hno].
    unfold pool_getConnection.
    destruct (Pool_getConnection ext (getConnection_calls w)); cbn [snd];
      (eapply (no_scheduler_extend w);
       [ exact Hno | reflexivity | reflexivity | reflexivity | reflexivity ]).
  - rewrite query_spec, freshness_gate_password by exact Hmode.
    destruct (pool (this w)) as [p|]; [|exact Hno].
    unfold pool_query. cbn [snd].
    eapply (no_scheduler_extend w);
      [ exact Hno | reflexivity | reflexivity | reflexivity | reflexivity ].
  - apply no_scheduler_shutdown. exact Hno.
  - destruct Hno as (Ht & Hh & Htr). rewrite Ht.
    unfold no_scheduler. auto.
Qed.

(** C9.  [initialize()] calls [setInterval] with no period other than
    13 minutes, which is the 15-minute validity less twice the 1-minute
    margin.  In token mode an [initialize()] that returns has armed one timer
    of that period and holds its handle.  In password mode [initialize()]
    arms nothing, and no session of a fresh manager ever has a timer armed,
    a handle stored, or a [setInterval] in its trace.  The timer's callback
    never throws: when the rotation it runs throws [e], the callback ends by
    logging [e] through [console.error]; it leaves the armed timers and the
    handle as they were and calls no [clearInterval]. *)
Theorem refresh_scheduler_spec (ext : Externals) :
  refreshInterval = (15 * 60 * 1000 - 2 * (1 * 60 * 1000))%Z /\
  refreshInterval = (13 * 60 * 1000)%Z /\
  (forall w,
     let w' := snd (initialize ext w) in
     let evs := events_since w w' in
     existsb (is_SetInterval_other_than refreshInterval) evs = false /\
     (existsb is_SetInterval evs = true -> use_iam_auth ext = true) /\
     (use_iam_auth ext = true ->
      fst (initialize ext w) = Normal tt ->
      tokenRefreshInterval (this w') = Some (timers_created w) /\
      In (timers_created w) (timers w') /\
      In (SetInterval (timers_created w) refreshInterval) evs)) /\
  (use_iam_auth ext = false ->
   forall cs, no_scheduler (run_calls ext cs (initial_world ext))) /\
  (forall w,
     let w' := snd (intervalCallback ext w) in
     fst (intervalCallback ext w) = Normal tt /\
     timers w' = timers w /\
     tokenRefreshInterval (this w') = tokenRefreshInterval (this w) /\
     existsb is_ClearInterval (events_since w w') = false /\
     forall e,
       fst (refreshPool ext w) = Throw e ->
       exists evs,
         events_since w w'
         = evs ++ [ConsoleError [Str "Failed to refresh pool:"; Err e]]).
Proof.
  split; [reflexivity|]. split; [reflexivity|].
  split; [|split].
  - intros w w' evs. subst evs w'.
    destruct (initialize_scheduler ext w) as (evs & Htr & Hother & Hpw & Htok).
    rewrite (events_since_app _ _ _ Htr).
    split; [exact Hother|]. split; [|exact Htok].
    intros Hset. destruct (use_iam_auth ext); [reflexivity|].
    destruct (Hpw eq_refl) as (Hnone & _). congruence.
  - intros Hmode cs. apply run_calls_invariant.
    + intros c w. apply no_scheduler_step. exact Hmode.
    + repeat split.
  - intros w w'. subst w'.
    destruct (refreshPool_frame ext w)
      as (evs & Htr & Ht & Hh & _ & Hclear & _).
    rewrite intervalCallback_spec.
    destruct (refreshPool ext w) as [[[]|e] w1]; cbn [fst snd] in *.
    + rewrite (events_since_app _ _ _ Htr).
      repeat split; try assumption. intros e He. discriminate He.
    + assert (Htr' : trace (log_event
                              (ConsoleError
                                 [Str "Failed to refresh pool:"; Err e]) w1)
                     = trace w
                       ++ (evs ++ [ConsoleError
                                     [Str "Failed to refresh pool:"; Err e]])).
      { cbn. rewrite Htr, app_assoc. reflexivity. }
      rewrite (events_since_app _ _ _ Htr').
      repeat split; try assumption.
      * rewrite existsb_app, Hclear. reflexivity.
      * intros e0 He0. injection He0 as <-. exists evs. reflexivity.
Qed.

Lemma refresh_scheduler_spec_witness :
  no_scheduler
    (run_calls Scenario.static_password
       [Initialize; Query "SELECT 1" []; IntervalTick; Shutdown]
       (initial_world Scenario.static_password)) /\
  tokenRefreshInterval
    (this (snd (initialize Scenario.healthy (initial_world Scenario.healthy))))
  = Some 0.
Proof.
  assert (Hpw : use_iam_auth Scenario.static_password = false)
    by (vm_compute; reflexivity).
  assert (Htk : use_iam_auth Scenario.healthy = true)
    by (vm_compute; reflexivity).
  assert (Hok : fst (initialize Scenario.healthy
                       (initial_world Scenario.healthy)) = Normal tt)
    by (vm_compute; reflexivity).
  split.
  - exact (proj1 (proj2 (proj2 (proj2
             (refresh_scheduler_spec Scenario.static_password)))) Hpw _).
  - exact (proj1 (proj2 (proj2 (proj1 (proj2 (proj2
             (refresh_scheduler_spec Scenario.healthy)))
             (initial_world Scenario.healthy))) Htk Hok)).
Defined.

(* ===================================================================== *)
(** ** The freshness gate on a stale token *)
(* ===================================================================== *)

Lemma count_rotations_app (l1 l2 : list Event) :
  count_rotations (l1 ++ l2) = count_rotations l1 + count_rotations l2.
Proof. unfold count_rotations. rewrite filter_app, length_app. reflexivity. Qed.

(** The stale gate, with the events it adds and the calls it leaves
    uncounted. *)
Lemma freshness_gate_stale_calls (ext : Externals) (w : World) :
  use_iam_auth ext = true ->
  fst (isTokenExpired ext w) = Normal true ->
  exists wg g,
    freshness_gate ext w = refreshPool ext wg /\
    this wg = this w /\
    signer_calls wg = signer_calls w /\
    end_calls wg = end_calls w /\
    createPool_calls wg = createPool_calls w /\
    query_calls wg = query_calls w /\
    ended wg = ended w /\
    trace wg = trace w ++ g /\
    (g = [gate_notice] \/ g = [DateNow; gate_notice]).
Proof.
  intros Hmode Hexpired. rewrite freshness_gate_spec, Hmode.
  unfold isTokenExpired, get_this, date_now, bind, ret in Hexpired.
  destruct (tokenExpiryTime (this w)) as [expiry|].
  - destruct (expiry =? 0)%Z.
    + exists (log_event gate_notice w), [gate_notice].
      repeat (split; [reflexivity|]). left. reflexivity.
    + cbn in Hexpired. injection Hexpired as ->.
      exists (log_event gate_notice (tick_now (log_event DateNow w))),
        [DateNow; gate_notice].
      repeat (split; [reflexivity|]).
      split; [cbn; rewrite <- app_assoc; reflexivity|]. right. reflexivity.
  - exists (log_event gate_notice w), [gate_notice].
    repeat (split; [reflexivity|]). left. reflexivity.
Qed.

(** A rotation in token mode whose collaborators all answer: the signer
    with a non-empty token, [end()] on the old pool, and the driver. *)
Lemma refreshPool_completes (ext : Externals) (w : World) (t : string)
    (old : Pool) :
  use_iam_auth ext = true ->
  pool (this w) = Some old ->
  Signer_getAuthToken ext (signer_calls w) = Normal t ->
  t <> "" ->
  Pool_end ext (end_calls w) = None ->
  mysql_createPool ext (createPool_calls w) = None ->
  fst (refreshPool ext w) = Normal tt /\
  pool (this (snd (refreshPool ext w)))
    = Some (token_pool (this w) (createPool_calls w) t) /\
  currentToken (this (snd (refreshPool ext w))) = Some t /\
  tokenExpiryTime (this (snd (refreshPool ext w)))
    = Some (Date_now ext (now_calls w) + 840000)%Z /\
  ended (snd (refreshPool ext w)) = pool_id old :: ended w /\
  query_calls (snd (refreshPool ext w)) = query_calls w /\
  trace (snd (refreshPool ext w))
    = trace w ++
      completed_rotation old (token_pool (this w) (createPool_calls w) t)
        (Date_now ext (now_calls w) + 840000)%Z.
Proof.
  intros Hmode Hpool Hsigner Hne Hend Hcreate.
  apply String.eqb_neq in Hne.
  destruct (refreshPool ext w) as [r w'] eqn:Hrun.
  js_unfold_in Hrun. cbn in Hrun.
  rewrite Hsigner in Hrun. cbn in Hrun.
  rewrite Hpool in Hrun. cbn in Hrun.
  rewrite Hend in Hrun. cbn in Hrun.
  rewrite Hmode in Hrun. cbn in Hrun.
  rewrite Hne in Hrun. cbn in Hrun.
  rewrite Hcreate in Hrun. cbn in Hrun.
  injection Hrun as <- <-. cbn.
  repeat (split; [reflexivity|]).
  rewrite <- !app_assoc. reflexivity.
Qed.

(** C5.  In token mode, on an installed pool whose token [isTokenExpired]
    finds stale, one [query] call runs [refreshPool] exactly once.  If that
    rotation throws, [query] throws the same error and no query reaches any
    pool.  If it completes, [query] is the [pool.query] of the pool the
    rotation created and installed, called after the rotation as the last
    thing [query] does.  And it does complete when the collaborators answer:
    if the signer hands out a non-empty token [t], [end()] of the old pool
    resolves and [mysql.createPool] returns, then the events of the call are
    the gate's, those of one completed rotation from the old pool to a new
    pool built with [t], and one [pool.query] on that new pool, whose answer
    is what [query] returns. *)
Theorem query_rotates_once
    (ext : Externals) (w : World) (sql : string) (params : list string)
    (old : Pool) :
  use_iam_auth ext = true ->
  pool (this w) = Some old ->
  fst (isTokenExpired ext w) = Normal true ->
  let r := query ext sql params w in
  let evs := events_since w (snd r) in
  count_rotations evs = 1 /\
  (exists wg,
    this wg = this w /\
    match refreshPool ext wg with
    | (Throw e, w1) =>
        r = (Throw e, w1) /\ existsb is_PoolQuery evs = false
    | (Normal _, w1) =>
        exists new evs',
          pool (this w1) = Some new /\
          pool_id new = createPool_calls w /\
          r = pool_query ext new sql params w1 /\
          pool (this (snd r)) = Some new /\
          evs = evs' ++ [PoolQuery (pool_id new) sql params] /\
          count_rotations evs' = 1 /\
          existsb is_PoolQuery evs' = false
    end) /\
  (forall t,
     Signer_getAuthToken ext (signer_calls w) = Normal t ->
     t <> "" ->
     Pool_end ext (end_calls w) = None ->
     mysql_createPool ext (createPool_calls w) = None ->
     let new := token_pool (this w) (createPool_calls w) t in
     fst r = Pool_query ext (query_calls w) /\
     pool (this (snd r)) = Some new /\
     currentToken (this (snd r)) = Some t /\
     ended (snd r) = pool_id old :: ended w /\
     exists g expiry,
       (g = [gate_notice] \/ g = [DateNow; gate_notice]) /\
       tokenExpiryTime (this (snd r)) = Some expiry /\
       evs = g ++ completed_rotation old new expiry
               ++ [PoolQuery (pool_id new) sql params]).
Proof.
  intros Hmode Hpool Hexpired r evs. subst evs r.
  destruct (freshness_gate_stale_calls ext w Hmode Hexpired)
    as (wg & g & Hgate & Hthis & Hsc & Hec & Hcalls & Hqc & Hended & Htrace
        & Hg).
  assert (Hg0 : count_rotations g = 0)
    by (destruct Hg as [-> | ->]; reflexivity).
  assert (Hgq : existsb is_PoolQuery g = false)
    by (destruct Hg as [-> | ->]; reflexivity).
  rewrite query_spec, Hpool, Hgate.
  split; [|split].
  - destruct (refreshPool_frame ext wg)
      as (rot & Hrot & _ & _ & _ & _ & Hrq & Hr1 & Hnew).
    destruct (refreshPool ext wg) as [[[]|e] w1] eqn:Hrun; cbn [fst snd] in *.
    + destruct (Hnew eq_refl) as (new & Hinstalled & Hid).
      rewrite Hinstalled. unfold pool_query. cbn [fst snd].
      rewrite (events_since_app w _
                 ((g ++ rot) ++ [PoolQuery (pool_id new) sql params])).
      * rewrite !count_rotations_app, Hg0, Hr1. reflexivity.
      * cbn. rewrite Hrot, Htrace, <- !app_assoc. reflexivity.
    + rewrite (events_since_app w _ (g ++ rot)).
      * rewrite count_rotations_app, Hg0, Hr1. reflexivity.
      * rewrite Hrot, Htrace, <- app_assoc. reflexivity.
  - destruct (refreshPool_frame ext wg)
      as (rot & Hrot & _ & _ & _ & _ & Hrq & Hr1 & Hnew).
    assert (Hsplit : count_rotations (g ++ rot) = 1)
      by (rewrite count_rotations_app, Hg0, Hr1; reflexivity).
    assert (Hnoq : existsb is_PoolQuery (g ++ rot) = false)
      by (rewrite existsb_app, Hgq, Hrq; reflexivity).
    destruct (refreshPool ext wg) as [[[]|e] w1] eqn:Hrun; cbn [fst snd] in *.
    + destruct (Hnew eq_refl) as (new & Hinstalled & Hid).
      rewrite Hinstalled. unfold pool_query. cbn [fst snd].
      assert (Hevs : events_since w
                       (tick_query
                          (log_event (PoolQuery (pool_id new) sql params) w1))
                     = (g ++ rot) ++ [PoolQuery (pool_id new) sql params]).
      { apply events_since_app. cbn. rewrite Hrot, Htrace, <- !app_assoc.
        reflexivity. }
      rewrite Hevs.
      exists wg. split; [exact Hthis|]. rewrite Hrun.
      exists new, (g ++ rot). rewrite <- Hcalls. repeat split; assumption.
    + assert (Hevs : events_since w w1 = g ++ rot).
      { apply events_since_app. rewrite Hrot, Htrace, <- app_assoc.
        reflexivity. }
      rewrite Hevs.
      exists wg. split; [exact Hthis|]. rewrite Hrun. split; [reflexivity|].
      exact Hnoq.
  - intros t Hsigner Hne Hend Hcreate new. subst new.
    rewrite <- Hthis in Hpool.
    rewrite <- Hsc in Hsigner. rewrite <- Hec in Hend.
    rewrite <- Hcalls in Hcreate.
    destruct (refreshPool_completes ext wg t old Hmode Hpool Hsigner Hne Hend
                Hcreate)
      as (Hok & Hnew & Htok & Hexp & Hend' & Hq' & Htr').
    rewrite Hthis, Hcalls in Hnew, Htr'.
    destruct (refreshPool ext wg) as [[[]|e] w1] eqn:Hrun; cbn [fst snd] in *;
      [|discriminate Hok].
    rewrite Hnew. unfold pool_query. cbn [fst snd].
    split; [rewrite Hq', Hqc; reflexivity|].
    split; [exact Hnew|]. split; [exact Htok|].
    split; [cbn; rewrite Hend', Hended; reflexivity|].
    exists g, (Date_now ext (now_calls wg) + 840000)%Z.
    split; [exact Hg|]. split; [exact Hexp|].
    apply events_since_app. cbn. rewrite Htr', Htrace, <- !app_assoc.
    reflexivity.
Qed.

Lemma query_rotates_once_witness :
  count_rotations
    (events_since (Scenario.initialized Scenario.stale)
       (snd (query Scenario.stale "SELECT 1" []
               (Scenario.initialized Scenario.stale)))) = 1 /\
  fst (query Scenario.stale "SELECT 1" []
         (Scenario.initialized Scenario.stale)) = Normal [["1"]] /\
  pool (this (snd (query Scenario.stale "SELECT 1" []
                     (Scenario.initialized Scenario.stale))))
    = Some (token_pool (this (Scenario.initialized Scenario.stale)) 1
              "token-B").
Proof.
  assert (Hm : use_iam_auth Scenario.stale = true) by (vm_compute; reflexivity).
  assert (Hp : pool (this (Scenario.initialized Scenario.stale))
               = Some (Scenario.first_pool Scenario.stale "token-A"))
    by (vm_compute; reflexivity).
  assert (He : fst (isTokenExpired Scenario.stale
                      (Scenario.initialized Scenario.stale)) = Normal true)
    by (vm_compute; reflexivity).
  assert (Hs : Signer_getAuthToken Scenario.stale
                 (signer_calls (Scenario.initialized Scenario.stale))
               = Normal "token-B") by (vm_compute; reflexivity).
  assert (Hn : "token-B" <> "") by discriminate.
  assert (Hc : Pool_end Scenario.stale
                 (end_calls (Scenario.initialized Scenario.stale)) = None)
    by (vm_compute; reflexivity).
  assert (Hd : mysql_createPool Scenario.stale
                 (createPool_calls (Scenario.initialized Scenario.stale))
               = None) by (vm_compute; reflexivity).
  assert (Hv : Pool_query Scenario.stale
                 (query_calls (Scenario.initialized Scenario.stale))
               = Normal [["1"]]) by (vm_compute; reflexivity).
  assert (Hi : createPool_calls (Scenario.initialized Scenario.stale) = 1)
    by (vm_compute; reflexivity).
  pose proof (query_rotates_once Scenario.stale _ "SELECT 1" [] _ Hm Hp He)
    as (H1 & _ & H3).
  split; [exact H1|].
  destruct (H3 "token-B" Hs Hn Hc Hd) as (Hr & Hnew & _).
  split; [exact (eq_trans Hr Hv)|].
  rewrite Hi in Hnew. exact Hnew.
Defined.

(* ===================================================================== *)
(** ** The pool factory *)
(* ===================================================================== *)

(** X1.  In password mode [createPool] ignores its token argument.  It calls
    neither the signer nor the clock and changes no field of the manager; it
    hands [mysql.createPool] the configuration with [DB_PWD] as password
    (undefined when the variable is unset) and no auth plugin.  If the driver
    returns a pool, the three listeners are registered on it, in the order
    acquire, release, enqueue, and that pool is returned; if the driver
    throws, the error is thrown on and no listener is registered. *)
Theorem createPool_password_mode
    (ext : Externals) (w : World) (token : option string) :
  use_iam_auth ext = false ->
  let opts := {| options_config := config (this w);
                 options_poolConfig := poolConfig (this w);
                 password := DB_PWD (env ext);
                 authPlugins := None |} in
  let id := createPool_calls w in
  let r := createPool ext token w in
  this (snd r) = this w /\
  signer_calls (snd r) = signer_calls w /\
  now_calls (snd r) = now_calls w /\
  match mysql_createPool ext (createPool_calls w) with
  | None =>
      fst r = Normal {| pool_id := id; pool_options := opts |} /\
      events_since w (snd r) =
        [ConsoleLog [Str "Creating new connection pool..."];
         MysqlCreatePool opts;
         PoolOn id "acquire"; PoolOn id "release"; PoolOn id "enqueue"]
  | Some e =>
      fst r = Throw e /\
      events_since w (snd r) =
        [ConsoleLog [Str "Creating new connection pool..."];
         MysqlCreatePool opts]
  end.
Proof.
  intros Hmode opts id r. subst r id opts.
  destruct (createPool ext token w) as [r w'] eqn:Hrun.
  js_exec Hrun; cbn [fst snd]; trace_norm; repeat split.
Qed.

Lemma createPool_password_mode_witness :
  this (snd (createPool Scenario.static_password (Some "ignored")
               (initial_world Scenario.static_password)))
  = this (initial_world Scenario.static_password).
Proof.
  assert (Hm : use_iam_auth Scenario.static_password = false)
    by (vm_compute; reflexivity).
  exact (proj1 (createPool_password_mode Scenario.static_password
                  (initial_world Scenario.static_password)
                  (Some "ignored") Hm)).
Defined.

(** X2.  In token mode, given a non-empty token, [createPool] uses it as it
    is: no signer call, no clock reading, no field of the manager changed
    (the stored token and expiry stay what they were), and the options it
    hands the driver carry the token both as password and as the answer of
    the [mysql_clear_password] plugin. *)
Theorem createPool_given_token
    (ext : Externals) (w : World) (token : string) :
  use_iam_auth ext = true ->
  token <> "" ->
  let opts := {| options_config := config (this w);
                 options_poolConfig := poolConfig (this w);
                 password := Some token;
                 authPlugins := Some token |} in
  let id := createPool_calls w in
  let r := createPool ext (Some token) w in
  this (snd r) = this w /\
  signer_calls (snd r) = signer_calls w /\
  now_calls (snd r) = now_calls w /\
  match mysql_createPool ext (createPool_calls w) with
  | None =>
      fst r = Normal {| pool_id := id; pool_options := opts |} /\
      events_since w (snd r) =
        [ConsoleLog [Str "Creating new connection pool..."];
         MysqlCreatePool opts;
         PoolOn id "acquire"; PoolOn id "release"; PoolOn id "enqueue"]
  | Some e =>
      fst r = Throw e /\
      events_since w (snd r) =
        [ConsoleLog [Str "Creating new connection pool..."];
         MysqlCreatePool opts]
  end.
Proof.
  intros Hmode Htoken opts id r. subst r id opts.
  apply String.eqb_neq in Htoken.
  destruct (createPool ext (Some token) w) as [r w'] eqn:Hrun.
  js_exec Hrun; cbn [fst snd]; trace_norm; repeat split.
Qed.

Lemma createPool_given_token_witness :
  signer_calls (snd (createPool Scenario.healthy (Some "given")
                       (initial_world Scenario.healthy)))
  = signer_calls (initial_world Scenario.healthy).
Proof.
  assert (Hm : use_iam_auth Scenario.healthy = true)
    by (vm_compute; reflexivity).
  assert (Ht : "given" <> "") by discriminate.
  exact (proj1 (proj2 (createPool_given_token Scenario.healthy
                         (initial_world Scenario.healthy) "given" Hm Ht))).
Defined.

(** X3.  In token mode, given no token or the empty string, [createPool]
    asks the signer exactly once.  If the signer fails, the error is thrown
    on, the driver is not called and no field has changed.  If it answers
    [t], then [t] is stored as current token with expiry 14 minutes after the
    clock reading, and [t] (even when empty: there is no second attempt) is
    the password and plugin answer of the options handed to the driver.  In
    no case does [createPool] assign the [pool] field. *)
Theorem createPool_missing_token
    (ext : Externals) (w : World) (token : option string) :
  use_iam_auth ext = true ->
  token = None \/ token = Some "" ->
  let r := createPool ext token w in
  let evs := events_since w (snd r) in
  signer_calls (snd r) = S (signer_calls w) /\
  length (filter is_SignerGetAuthToken evs) = 1 /\
  pool (this (snd r)) = pool (this w) /\
  match Signer_getAuthToken ext (signer_calls w) with
  | Throw e =>
      fst r = Throw e /\
      this (snd r) = this w /\
      existsb is_MysqlCreatePool evs = false
  | Normal t =>
      let opts := {| options_config := config (this w);
                     options_poolConfig := poolConfig (this w);
                     password := Some t;
                     authPlugins := Some t |} in
      currentToken (this (snd r)) = Some t /\
      tokenExpiryTime (this (snd r))
        = Some (Date_now ext (now_calls w) + 840000)%Z /\
      In (MysqlCreatePool opts) evs /\
      length (filter is_MysqlCreatePool evs) = 1 /\
      match mysql_createPool ext (createPool_calls w) with
      | None =>
          fst r = Normal {| pool_id := createPool_calls w;
                            pool_options := opts |}
      | Some e => fst r = Throw e
      end
  end.
Proof.
  intros Hmode Htoken r evs. subst evs r.
  destruct (createPool ext token w) as [r w'] eqn:Hrun.
  destruct Htoken as [-> | ->];
    js_exec Hrun; cbn [fst snd]; trace_norm; repeat split; in_trace.
Qed.

Lemma createPool_missing_token_witness :
  currentToken (this (snd (createPool Scenario.healthy None
                             (initial_world Scenario.healthy))))
  = Some "token-A".
Proof.
  assert (Hm : use_iam_auth Scenario.healthy = true)
    by (vm_compute; reflexivity).
  exact (proj1 (proj2 (proj2 (proj2
           (createPool_missing_token Scenario.healthy
              (initial_world Scenario.healthy) None Hm
              (or_introl eq_refl)))))).
Defined.

(* ===================================================================== *)
(** ** What the three state-changing methods do to pools and timers *)
(* ===================================================================== *)

(** [createPool_calls] and the pool installed, [ended], and the timers after
    a rotation. *)
Lemma refreshPool_resources (ext : Externals) (w : World) :
  let w' := snd (refreshPool ext w) in
  timers w' = timers w /\
  timers_created w' = timers_created w /\
  tokenRefreshInterval (this w') = tokenRefreshInterval (this w) /\
  (ended w' = ended w \/
   exists old, pool (this w) = Some old /\ ended w' = pool_id old :: ended w) /\
  (pool (this w') = pool (this w) /\
   (createPool_calls w' = createPool_calls w \/
    createPool_calls w' = S (createPool_calls w)) \/
   exists new,
     fst (refreshPool ext w) = Normal tt /\
     pool (this w') = Some new /\
     pool_id new = createPool_calls w /\
     createPool_calls w' = S (createPool_calls w)) /\
  (fst (refreshPool ext w) = Normal tt ->
   (exists new, pool (this w') = Some new /\ pool_id new = createPool_calls w)
   /\ (forall old, pool (this w) = Some old ->
         ended w' = pool_id old :: ended w)
   /\ (pool (this w) = None -> ended w' = ended w)).
Proof.
  intros w'. subst w'.
  destruct (refreshPool ext w) as [r w'] eqn:Hrun.
  js_exec Hrun; cbn.
  all: split; [reflexivity|]; split; [reflexivity|]; split; [reflexivity|].
  all: split; [ first [ left; reflexivity
                      | right; eexists; split; reflexivity ] |].
  all: split;
    [ first [ left; split; [ first [reflexivity | assumption] | ];
              first [ left; reflexivity | right; reflexivity ]
            | right; eexists; repeat split; reflexivity ] |].
  all: intros Hok; try discriminate Hok.
  all: split; [eexists; split; reflexivity|].
  all: split;
    [ intros old0 Hold; first [ discriminate Hold
                              | injection Hold as <-; reflexivity ]
    | intros Hnone; first [ discriminate Hnone | reflexivity ] ].
Qed.

Lemma initialize_resources (ext : Externals) (w : World) :
  let w' := snd (initialize ext w) in
  ended w' = ended w /\
  end_calls w' = end_calls w /\
  (createPool_calls w' = createPool_calls w /\ pool (this w') = pool (this w)
   \/ createPool_calls w' = S (createPool_calls w)) /\
  (forall p, pool (this w') = Some p ->
     pool (this w) = Some p \/ pool_id p = createPool_calls w) /\
  (timers w' = timers w /\
   timers_created w' = timers_created w /\
   tokenRefreshInterval (this w') = tokenRefreshInterval (this w)
   \/
   use_iam_auth ext = true /\
   fst (initialize ext w) = Normal tt /\
   timers w' = timers_created w :: timers w /\
   timers_created w' = S (timers_created w) /\
   tokenRefreshInterval (this w') = Some (timers_created w)) /\
  (fst (initialize ext w) = Normal tt ->
   use_iam_auth ext = true ->
   timers w' = timers_created w :: timers w /\
   tokenRefreshInterval (this w') = Some (timers_created w)) /\
  (fst (initialize ext w) = Normal tt ->
   exists p, pool (this w') = Some p /\ pool_id p = createPool_calls w).
Proof.
  intros w'. subst w'.
  destruct (initialize ext w) as [r w'] eqn:Hrun.
  js_exec Hrun; cbn.
  all: split; [reflexivity|]; split; [reflexivity|].
  all: split;
    [ first [ left; split; reflexivity | right; reflexivity ] |].
  all: split;
    [ intros p0 Hp0;
      first [ left; exact Hp0
            | right; injection Hp0 as <-; reflexivity ] |].
  all: split;
    [ first [ left; repeat split; reflexivity
            | right; repeat split; reflexivity ] |].
  all: split;
    [ intros Hok Hmode; try discriminate Hok; try discriminate Hmode;
      split; reflexivity
    | intros Hok; try discriminate Hok; eexists; split; reflexivity ].
Qed.

Lemma shutdown_resources (ext : Externals) (w : World) :
  let w' := snd (shutdown ext w) in
  createPool_calls w' = createPool_calls w /\
  timers_created w' = timers_created w /\
  tokenRefreshInterval (this w') = None /\
  timers w' =
    match tokenRefreshInterval (this w) with
    | Some h => filter (fun h' => negb (Nat.eqb h' h)) (timers w)
    | None => timers w
    end /\
  (pool (this w') = pool (this w) \/ pool (this w') = None) /\
  (ended w' = ended w \/
   exists p, pool (this w) = Some p /\ ended w' = pool_id p :: ended w).
Proof.
  intros w'. subst w'.
  destruct (shutdown ext w) as [r w'] eqn:Hrun.
  js_exec Hrun; cbn.
  all: split; [reflexivity|]; split; [reflexivity|].
  all: split; [first [reflexivity | assumption]|].
  all: split; [reflexivity|].
  all: split;
    [ first [ right; reflexivity | left; reflexivity
            | left; assumption | right; assumption ] |].
  all: first [ left; reflexivity | right; eexists; split; reflexivity ].
Qed.

(* --------------------------------------------------------------------- *)
(** *** Calls that reach the state-changing methods through the gate *)

Lemma same_resources_refl (w : World) : same_resources w w.
Proof. repeat split. Qed.

Lemma same_resources_trans (w1 w2 w3 : World) :
  same_resources w1 w2 -> same_resources w2 w3 -> same_resources w1 w3.
Proof.
  unfold same_resources.
  intros (A1 & A2 & A3 & A4 & A5) (B1 & B2 & B3 & B4 & B5).
  repeat split; congruence.
Qed.

Lemma gate_resources (ext : Externals) (w : World) :
  same_resources (snd (freshness_gate ext w)) w \/
  exists w0, same_resources w0 w /\
    snd (freshness_gate ext w) = snd (refreshPool ext w0).
Proof.
  rewrite freshness_gate_spec.
  destruct (use_iam_auth ext); [|left; apply same_resources_refl].
  destruct (tokenExpiryTime (this w)) as [expiry|].
  - destruct (expiry =? 0)%Z.
    + right. eexists. split; [|reflexivity]. repeat split.
    + destruct (Date_now ext (now_calls w) >=? expiry - 60000)%Z.
      * right. eexists. split; [|reflexivity]. repeat split.
      * left. repeat split.
  - right. eexists. split; [|reflexivity]. repeat split.
Qed.

(** Up to the trace and the call counters of the signer, the clock and the
    pools, every call leaves the world as it found it, or as one of
    [initialize], [refreshPool], [shutdown] leaves it. *)
Lemma resources_after_call (ext : Externals) (c : Call) (w : World) :
  same_resources (run_call ext c w) w \/
  exists w0, same_resources w0 w /\
    (same_resources (run_call ext c w) (snd (initialize ext w0)) \/
     same_resources (run_call ext c w) (snd (refreshPool ext w0)) \/
     same_resources (run_call ext c w) (snd (shutdown ext w0))).
Proof.
  assert (Hgate : forall w1,
            same_resources w1 (snd (freshness_gate ext w)) ->
            same_resources w1 w \/
            exists w0, same_resources w0 w /\
              (same_resources w1 (snd (initialize ext w0)) \/
               same_resources w1 (snd (refreshPool ext w0)) \/
               same_resources w1 (snd (shutdown ext w0)))).
  { intros w1 H1.
    destruct (gate_resources ext w) as [G|(w0 & G0 & G)].
    - left. exact (same_resources_trans _ _ _ H1 G).
    - right. exists w0. split; [exact G0|]. right. left.
      rewrite <- G. exact H1. }
  destruct c; cbn [run_call].
  - right. exists w. split; [apply same_resources_refl|].
    left. apply same_resources_refl.
  - right. exists w. split; [apply same_resources_refl|].
    right. left. apply same_resources_refl.
  - rewrite getConnection_spec.
    destruct (pool (this w)); [|left; apply same_resources_refl].
    destruct (freshness_gate ext w) as [[[]|e] w1] eqn:Hg; cbn [snd] in *;
      [|apply Hgate; apply same_resources_refl].
    destruct (pool (this w1)) as [p1|];
      [|apply Hgate; apply same_resources_refl].
    unfold pool_getConnection.
    destruct (Pool_getConnection ext (getConnection_calls w1));
      apply Hgate; repeat split.
  - rewrite query_spec.
    destruct (pool (this w)); [|left; apply same_resources_refl].
    destruct (freshness_gate ext w) as [[[]|e] w1] eqn:Hg; cbn [snd] in *;
      [|apply Hgate; apply same_resources_refl].
    destruct (pool (this w1)) as [p1|];
      [|apply Hgate; apply same_resources_refl].
    apply Hgate; repeat split.
  - right. exists w. split; [apply same_resources_refl|].
    right. right. apply same_resources_refl.
  - destruct (timers w); [left; apply same_resources_refl|].
    right. exists w. split; [apply same_resources_refl|].
    right. left. rewrite intervalCallback_spec.
    destruct (refreshPool ext w) as [[[]|e] w1]; repeat split.
Qed.

(* --------------------------------------------------------------------- *)
(** *** Identities are fresh *)

Lemma Forall_lt_S (n : nat) (l : list nat) :
  Forall (fun x => x < n) l -> Forall (fun x => x < S n) l.
Proof. apply Forall_impl. intros; lia. Qed.

Lemma Forall_filter_keep {A} (P : A -> Prop) (f : A -> bool) (l : list A) :
  Forall P l -> Forall P (filter f l).
Proof.
  intros H. apply Forall_forall. intros x Hx.
  apply filter_In in Hx. destruct Hx as [Hx _].
  exact (proj1 (Forall_forall P l) H x Hx).
Qed.

Lemma well_formed_same (w1 w2 : World) :
  same_resources w1 w2 -> well_formed w2 -> well_formed w1.
Proof.
  unfold same_resources, well_formed.
  intros (A1 & A2 & A3 & A4 & A5). rewrite A1, A2, A3, A4, A5. auto.
Qed.

Lemma well_formed_refreshPool (ext : Externals) (w : World) :
  well_formed w -> well_formed (snd (refreshPool ext w)).
Proof.
  intros (He & Ht & Hp & Hh).
  destruct (refreshPool_resources ext w)
    as (Rt & Rc & Rh & Re & Rp & _).
  unfold well_formed. rewrite Rt, Rc, Rh.
  assert (Hcalls : createPool_calls w
                   <= createPool_calls (snd (refreshPool ext w))).
  { destruct Rp as [[_ [-> | ->]]|(new & _ & _ & _ & ->)]; lia. }
  repeat split; try assumption.
  - destruct Re as [-> | (old & Hold & ->)].
    + eapply Forall_impl; [|exact He]. cbn. intros; lia.
    + constructor.
      * specialize (Hp _ Hold). lia.
      * eapply Forall_impl; [|exact He]. cbn. intros; lia.
  - intros p Hpool.
    destruct Rp as [[Hsame _]|(new & _ & Hnew & Hid & Hc)].
    + rewrite Hsame in Hpool. specialize (Hp _ Hpool). lia.
    + rewrite Hnew in Hpool. injection Hpool as <-. lia.
Qed.

Lemma well_formed_initialize (ext : Externals) (w : World) :
  well_formed w -> well_formed (snd (initialize ext w)).
Proof.
  intros (He & Ht & Hp & Hh).
  destruct (initialize_resources ext w)
    as (Re & _ & Rc & Rp & Rt & _).
  unfold well_formed. rewrite Re.
  assert (Hcalls : createPool_calls w
                   <= createPool_calls (snd (initialize ext w))).
  { destruct Rc as [[-> _] | ->]; lia. }
  split; [|split; [|split]].
  - eapply Forall_impl; [|exact He]. cbn. intros; lia.
  - destruct Rt as [(-> & -> & _) | (_ & _ & -> & -> & _)].
    + exact Ht.
    + constructor; [lia|]. apply Forall_lt_S. exact Ht.
  - intros p Hpool. destruct Rc as [[Hc Hsame] | Hc].
    + rewrite Hsame in Hpool. specialize (Hp _ Hpool). lia.
    + destruct (Rp _ Hpool) as [Hold | Hid].
      * specialize (Hp _ Hold). lia.
      * lia.
  - intros h Hhandle.
    destruct Rt as [(-> & _ & Hsame) | (_ & _ & -> & _ & Hnew)].
    + rewrite Hsame in Hhandle. exact (Hh _ Hhandle).
    + rewrite Hnew in Hhandle. injection Hhandle as <-. left. reflexivity.
Qed.

Lemma well_formed_shutdown (ext : Externals) (w : World) :
  well_formed w -> well_formed (snd (shutdown ext w)).
Proof.
  intros (He & Ht & Hp & Hh).
  destruct (shutdown_resources ext w)
    as (Rc & Rtc & Rh & Rt & Rp & Re).
  unfold well_formed. rewrite Rc, Rtc, Rh, Rt.
  split; [|split; [|split]].
  - destruct Re as [-> | (p & Hpool & ->)]; [exact He|].
    constructor; [exact (Hp _ Hpool) | exact He].
  - destruct (tokenRefreshInterval (this w)); [|exact Ht].
    apply Forall_filter_keep. exact Ht.
  - intros p Hpool. destruct Rp as [Hsame | Hnone].
    + rewrite Hsame in Hpool. exact (Hp _ Hpool).
    + rewrite Hnone in Hpool. discriminate Hpool.
  - intros h Hhandle. discriminate Hhandle.
Qed.

Lemma well_formed_step (ext : Externals) (c : Call) (w : World) :
  well_formed w -> well_formed (run_call ext c w).
Proof.
  intros Hwf.
  destruct (resources_after_call ext c w) as [H|(w0 & H0 & [H|[H|H]])].
  - exact (well_formed_same _ _ H Hwf).
  - apply (well_formed_same _ _ H). apply well_formed_initialize.
    exact (well_formed_same _ _ H0 Hwf).
  - apply (well_formed_same _ _ H). apply well_formed_refreshPool.
    exact (well_formed_same _ _ H0 Hwf).
  - apply (well_formed_same _ _ H). apply well_formed_shutdown.
    exact (well_formed_same _ _ H0 Hwf).
Qed.

Lemma well_formed_reachable (ext : Externals) (cs : list Call) :
  well_formed (run_calls ext cs (initial_world ext)).
Proof.
  apply run_calls_invariant.
  - intros c w. apply well_formed_step.
  - repeat split; try constructor; intros; discriminate.
Qed.

(* ===================================================================== *)
(** ** Initialization *)
(* ===================================================================== *)

(** X4.  When the connectivity probe of [initialize()] (the
    [getConnection()] on the pool just created) rejects with [e],
    [initialize()] logs [e] and throws it; the new pool is by then installed
    in [this.pool] and stays there, no [end()] is called on it, nothing is
    released, and no timer is armed. *)
Theorem initialize_probe_failure (ext : Externals) (w : World) (e : Error) :
  Pool_getConnection ext (getConnection_calls w) = Some e ->
  existsb is_PoolGetConnection
    (events_since w (snd (initialize ext w))) = true ->
  let w' := snd (initialize ext w) in
  let evs := events_since w w' in
  fst (initialize ext w) = Throw e /\
  (exists p,
     pool (this w') = Some p /\
     pool_id p = createPool_calls w /\
     In (MysqlCreatePool (pool_options p)) evs /\
     In (PoolGetConnection (pool_id p)) evs) /\
  In (ConsoleError [Str "Failed to initialize RDS IAM Auth Manager:"; Err e])
    evs /\
  existsb is_any_PoolEnd evs = false /\
  ended w' = ended w /\
  existsb is_ConnectionRelease evs = false /\
  existsb is_SetInterval evs = false /\
  timers w' = timers w /\
  tokenRefreshInterval (this w') = tokenRefreshInterval (this w).
Proof.
  intros Hprobe.
  destruct (initialize ext w) as [r w'] eqn:Hrun.
  js_exec Hrun; cbn [fst snd]; trace_norm; intros Hreached;
    try discriminate Hreached.
  all: split; [reflexivity|].
  all: split; [eexists; repeat split; in_trace|].
  all: split; [in_trace|].
  all: repeat split.
Qed.

Lemma initialize_probe_failure_witness :
  fst (initialize
         {| env := Scenario.env_token; parseInt := Scenario.parse_small;
            Signer_getAuthToken := Scenario.tokens;
            Date_now := Scenario.clock;
            mysql_createPool := fun _ => None; Pool_end := fun _ => None;
            Pool_getConnection := Scenario.fails_at 0;
            Pool_query := fun _ => Normal [] |}
         (initial_world Scenario.healthy))
  = Throw Scenario.boom.
Proof.
  refine (proj1 (initialize_probe_failure _ _ Scenario.boom _ _)).
  - vm_compute; reflexivity.
  - vm_compute; reflexivity.
Defined.

(** X5.  [initialize()] never closes a pool and never clears a timer,
    whatever state it is called in and however it ends: [end()] is not
    called, and every timer armed before is armed after.  When it returns,
    the pool installed is the one it has just created, and the connection the
    probe acquired from that pool has been released, once. *)
Theorem initialize_replaces_without_closing (ext : Externals) (w : World) :
  let w' := snd (initialize ext w) in
  let evs := events_since w w' in
  existsb is_any_PoolEnd evs = false /\
  ended w' = ended w /\
  existsb is_ClearInterval evs = false /\
  incl (timers w) (timers w') /\
  (fst (initialize ext w) = Normal tt ->
   exists p,
     pool (this w') = Some p /\
     pool_id p = createPool_calls w /\
     occurs_before is_MysqlCreatePool is_PoolGetConnection evs = true /\
     In (PoolGetConnection (pool_id p)) evs /\
     filter is_ConnectionRelease evs
       = [ConnectionRelease (getConnection_calls w)] /\
     occurs_before is_PoolGetConnection is_ConnectionRelease evs = true).
Proof.
  intros w' evs. subst evs w'.
  destruct (initialize ext w) as [r w'] eqn:Hrun.
  js_exec Hrun; cbn [fst snd]; trace_norm.
  all: split; [reflexivity|]; split; [reflexivity|]; split; [reflexivity|].
  all: split;
    [ first [ apply incl_refl | apply incl_tl; apply incl_refl ] |].
  all: intros Hok; try discriminate Hok.
  all: eexists; repeat split; in_trace.
Qed.

(* ===================================================================== *)
(** ** Timers that lose their handle *)
(* ===================================================================== *)

Lemma orphaned_same (h : TimerId) (w1 w2 : World) :
  same_resources w1 w2 -> orphaned h w2 -> orphaned h w1.
Proof.
  unfold same_resources, orphaned.
  intros (A1 & _ & A3 & _ & A5). rewrite A1, A3, A5. auto.
Qed.

Lemma orphaned_step (ext : Externals) (h : TimerId) (c : Call) (w : World) :
  orphaned h w -> orphaned h (run_call ext c w).
Proof.
  assert (Hinit : forall v, orphaned h v -> orphaned h (snd (initialize ext v))).
  { intros v (Hin & Hne & Hlt).
    destruct (initialize_resources ext v) as (_ & _ & _ & _ & Rt & _).
    unfold orphaned.
    destruct Rt as [(-> & -> & ->) | (_ & _ & -> & -> & ->)].
    - auto.
    - repeat split; [right; exact Hin | | lia].
      intros Heq. injection Heq as Heq. lia. }
  assert (Hrot : forall v, orphaned h v -> orphaned h (snd (refreshPool ext v))).
  { intros v (Hin & Hne & Hlt).
    destruct (refreshPool_resources ext v) as (Rt & Rc & Rh & _).
    unfold orphaned. rewrite Rt, Rc, Rh. auto. }
  assert (Hshut : forall v, orphaned h v -> orphaned h (snd (shutdown ext v))).
  { intros v (Hin & Hne & Hlt).
    destruct (shutdown_resources ext v) as (_ & Rtc & Rh & Rt & _).
    unfold orphaned. rewrite Rtc, Rh, Rt.
    repeat split; [|discriminate|exact Hlt].
    destruct (tokenRefreshInterval (this v)) as [h0|]; [|exact Hin].
    apply filter_In. split; [exact Hin|].
    apply Bool.negb_true_iff, Nat.eqb_neq. congruence. }
  intros Horph.
  destruct (resources_after_call ext c w) as [H|(w0 & H0 & [H|[H|H]])].
  - exact (orphaned_same _ _ _ H Horph).
  - apply (orphaned_same _ _ _ H), Hinit, (orphaned_same _ _ _ H0 Horph).
  - apply (orphaned_same _ _ _ H), Hrot, (orphaned_same _ _ _ H0 Horph).
  - apply (orphaned_same _ _ _ H), Hshut, (orphaned_same _ _ _ H0 Horph).
Qed.

(** X6.  A second [initialize()] leaks the timer of the first.  In token
    mode, if the manager of a session holds the handle [h] of its refresh
    timer and [initialize()] is called again and returns, the handle is
    overwritten by that of a new timer while [h] stays armed; and [h] stays
    armed after every further sequence of calls, [shutdown()] included, which
    clears only the timer whose handle it finds. *)
Theorem reinitialize_leaks_timer
    (ext : Externals) (before after : list Call) (h : TimerId) :
  let w := run_calls ext before (initial_world ext) in
  let w1 := snd (initialize ext w) in
  use_iam_auth ext = true ->
  tokenRefreshInterval (this w) = Some h ->
  fst (initialize ext w) = Normal tt ->
  tokenRefreshInterval (this w1) = Some (timers_created w) /\
  timers_created w <> h /\
  In h (timers (run_calls ext after w1)) /\
  In h (timers (snd (shutdown ext w1))).
Proof.
  intros w w1 Hmode Hhandle Hok. subst w1.
  destruct (well_formed_reachable ext before) as (_ & Ht & _ & Hh).
  fold w in Ht, Hh. clearbody w.
  assert (Hin : In h (timers w)) by exact (Hh _ Hhandle).
  assert (Hlt : h < timers_created w)
    by exact (proj1 (Forall_forall _ _) Ht h Hin).
  destruct (initialize_resources ext w) as (_ & _ & _ & _ & _ & Rok & _).
  destruct (Rok Hok Hmode) as (Rt & Rh).
  assert (Horph : orphaned h (snd (initialize ext w))).
  { unfold orphaned. rewrite Rt, Rh.
    destruct (initialize_resources ext w) as (_ & _ & _ & _ & Rc & _).
    repeat split.
    - right. exact Hin.
    - intros Heq. injection Heq as Heq. lia.
    - destruct Rc as [(_ & -> & _) | (_ & _ & _ & -> & _)];
        [exact Hlt | apply Nat.lt_lt_succ_r; exact Hlt]. }
  split; [exact Rh|].
  split; [intros Heq; rewrite Heq in Hlt; exact (Nat.lt_irrefl _ Hlt)|].
  split.
  - apply (run_calls_invariant ext (orphaned h)).
    + intros c v. apply orphaned_step.
    + exact Horph.
  - exact (proj1 (orphaned_step ext h Shutdown _ Horph)).
Qed.

Lemma reinitialize_leaks_timer_witness :
  In 0 (timers (run_calls Scenario.healthy [Shutdown]
                  (snd (initialize Scenario.healthy
                          (run_calls Scenario.healthy [Initialize]
                             (initial_world Scenario.healthy)))))).
Proof.
  assert (Hm : use_iam_auth Scenario.healthy = true)
    by (vm_compute; reflexivity).
  assert (Hh : tokenRefreshInterval
                 (this (run_calls Scenario.healthy [Initialize]
                          (initial_world Scenario.healthy))) = Some 0)
    by (vm_compute; reflexivity).
  assert (Hok : fst (initialize Scenario.healthy
                       (run_calls Scenario.healthy [Initialize]
                          (initial_world Scenario.healthy))) = Normal tt)
    by (vm_compute; reflexivity).
  exact (proj1 (proj2 (proj2
           (reinitialize_leaks_timer Scenario.healthy [Initialize] [Shutdown]
              0 Hm Hh Hok)))).
Defined.

(* ===================================================================== *)
(** ** A pool just installed has not ended *)
(* ===================================================================== *)

(** X7.  In every state a session can reach, a [refreshPool()] or an
    [initialize()] that returns leaves installed a pool on which [end()] has
    never completed: the pool it created, whose identity no earlier pool
    had. *)
Theorem installed_pool_is_fresh (ext : Externals) (cs : list Call) :
  let w := run_calls ext cs (initial_world ext) in
  (fst (refreshPool ext w) = Normal tt ->
   exists p,
     pool (this (snd (refreshPool ext w))) = Some p /\
     usable (snd (refreshPool ext w)) p) /\
  (fst (initialize ext w) = Normal tt ->
   exists p,
     pool (this (snd (initialize ext w))) = Some p /\
     usable (snd (initialize ext w)) p).
Proof.
  intros w.
  destruct (well_formed_reachable ext cs) as (He & _ & Hp & _).
  fold w in He, Hp. clearbody w.
  assert (Hfresh : ~ In (createPool_calls w) (ended w)).
  { intros Hin. pose proof (proj1 (Forall_forall _ _) He _ Hin) as Hlt.
    cbn in Hlt. lia. }
  split; intros Hok.
  - destruct (refreshPool_resources ext w) as (_ & _ & _ & _ & _ & Rok).
    destruct (Rok Hok) as ((p & Hpool & Hid) & Hold & Hnone).
    exists p. split; [exact Hpool|]. unfold usable. rewrite Hid.
    destruct (pool (this w)) as [old|] eqn:Hw.
    + rewrite (Hold _ eq_refl). intros [Heq|Hin]; [|exact (Hfresh Hin)].
      specialize (Hp _ eq_refl). lia.
    + rewrite (Hnone eq_refl). exact Hfresh.
  - destruct (initialize_resources ext w) as (Re & _ & _ & _ & _ & _ & Rok).
    destruct (Rok Hok) as (p & Hpool & Hid).
    exists p. split; [exact Hpool|]. unfold usable. rewrite Hid, Re.
    exact Hfresh.
Qed.

Lemma installed_pool_is_fresh_witness :
  exists p,
    pool (this (snd (refreshPool Scenario.healthy
                       (run_calls Scenario.healthy [Initialize; Shutdown]
                          (initial_world Scenario.healthy))))) = Some p /\
    usable (snd (refreshPool Scenario.healthy
                   (run_calls Scenario.healthy [Initialize; Shutdown]
                      (initial_world Scenario.healthy)))) p.
Proof.
  assert (Hok : fst (refreshPool Scenario.healthy
                       (run_calls Scenario.healthy [Initialize; Shutdown]
                          (initial_world Scenario.healthy))) = Normal tt)
    by (vm_compute; reflexivity).
  exact (proj1 (installed_pool_is_fresh Scenario.healthy
                  [Initialize; Shutdown]) Hok).
Defined.

Lemma initialize_replaces_without_closing_witness :
  ended (snd (initialize Scenario.healthy
                (Scenario.initialized Scenario.healthy)))
  = ended (Scenario.initialized Scenario.healthy).
Proof.
  exact (proj1 (proj2 (initialize_replaces_without_closing Scenario.healthy
                         (Scenario.initialized Scenario.healthy)))).
Defined.

(* ===================================================================== *)
(** ** The freshness gate on a fresh token, and on [getConnection] *)
(* ===================================================================== *)

(** X8.  In token mode, on an installed pool, when [isTokenExpired] answers
    false, [query] and [getConnection] read the clock once and then make the
    pool's own call: no rotation starts, the signer is not called, no pool
    is created or closed, and no field of the manager changes. *)
Theorem fresh_token_no_rotation
    (ext : Externals) (w : World) (p : Pool)
    (sql : string) (params : list string) :
  use_iam_auth ext = true ->
  pool (this w) = Some p ->
  fst (isTokenExpired ext w) = Normal false ->
  let w1 := tick_now (log_event DateNow w) in
  query ext sql params w = pool_query ext p sql params w1 /\
  getConnection ext w = pool_getConnection ext p w1 /\
  this (snd (query ext sql params w)) = this w /\
  this (snd (getConnection ext w)) = this w /\
  events_since w (snd (query ext sql params w))
    = [DateNow; PoolQuery (pool_id p) sql params] /\
  events_since w (snd (getConnection ext w))
    = [DateNow; PoolGetConnection (pool_id p)].
Proof.
  intros Hmode Hpool Hfresh w1. subst w1.
  assert (Hgate : freshness_gate ext w
                  = (Normal tt, tick_now (log_event DateNow w))).
  { rewrite freshness_gate_spec, Hmode.
    unfold isTokenExpired, get_this, date_now, bind, ret in Hfresh.
    destruct (tokenExpiryTime (this w)) as [expiry|];
      [|discriminate Hfresh].
    destruct (expiry =? 0)%Z; [discriminate Hfresh|].
    cbn in Hfresh. injection Hfresh as ->. reflexivity. }
  rewrite query_spec, getConnection_spec, Hpool, Hgate.
  cbn [this tick_now log_event]. rewrite Hpool.
  split; [reflexivity|]. split; [reflexivity|].
  unfold pool_query, pool_getConnection. cbn [getConnection_calls tick_now log_event].
  destruct (Pool_getConnection ext (getConnection_calls w));
    cbn [fst snd]; trace_norm; repeat split.
Qed.

Lemma fresh_token_no_rotation_witness :
  this (snd (query Scenario.healthy "SELECT 1" []
               (Scenario.initialized Scenario.healthy)))
  = this (Scenario.initialized Scenario.healthy).
Proof.
  assert (Hm : use_iam_auth Scenario.healthy = true)
    by (vm_compute; reflexivity).
  assert (Hp : pool (this (Scenario.initialized Scenario.healthy))
               = Some (Scenario.first_pool Scenario.healthy "token-A"))
    by (vm_compute; reflexivity).
  assert (Hf : fst (isTokenExpired Scenario.healthy
                      (Scenario.initialized Scenario.healthy)) = Normal false)
    by (vm_compute; reflexivity).
  exact (proj1 (proj2 (proj2
           (fresh_token_no_rotation Scenario.healthy _ _ "SELECT 1" []
              Hm Hp Hf)))).
Defined.

(** The stale gate, with the events it adds before the rotation. *)
Lemma freshness_gate_stale_notice (ext : Externals) (w : World) :
  use_iam_auth ext = true ->
  fst (isTokenExpired ext w) = Normal true ->
  exists wg g,
    freshness_gate ext w = refreshPool ext wg /\
    this wg = this w /\
    createPool_calls wg = createPool_calls w /\
    trace wg = trace w ++ g /\
    (g = [gate_notice] \/ g = [DateNow; gate_notice]).
Proof.
  intros Hmode Hexpired. rewrite freshness_gate_spec, Hmode.
  unfold isTokenExpired, get_this, date_now, bind, ret in Hexpired.
  destruct (tokenExpiryTime (this w)) as [expiry|].
  - destruct (expiry =? 0)%Z.
    + exists (log_event gate_notice w), [gate_notice]. repeat split.
      left. reflexivity.
    + cbn in Hexpired. injection Hexpired as ->.
      exists (log_event gate_notice (tick_now (log_event DateNow w))),
        [DateNow; gate_notice].
      repeat split; [|right; reflexivity].
      cbn. rewrite <- app_assoc. reflexivity.
  - exists (log_event gate_notice w), [gate_notice]. repeat split.
    left. reflexivity.
Qed.

(** A rotation asks no pool for a connection. *)
Lemma refreshPool_probe_free (ext : Externals) (w : World) :
  exists evs,
    trace (snd (refreshPool ext w)) = trace w ++ evs /\
    count_rotations evs = 1 /\
    existsb is_PoolGetConnection evs = false /\
    (fst (refreshPool ext w) = Normal tt ->
     exists new,
       pool (this (snd (refreshPool ext w))) = Some new /\
       pool_id new = createPool_calls w).
Proof.
  destruct (refreshPool ext w) as [r w'] eqn:Hrun.
  js_exec Hrun; cbn [fst snd]; eexists;
    (split; [cbn; rewrite <- ?app_assoc; reflexivity|]);
    cbn; repeat split; intros Hok; try discriminate Hok;
    eexists; split; reflexivity.
Qed.

(** X9.  In token mode, on an installed pool whose token [isTokenExpired]
    finds stale, one [getConnection] call runs [refreshPool] exactly once.
    If the rotation throws, [getConnection] throws the same error and no
    pool is asked for a connection.  If it completes, the connection is
    requested, as the last thing [getConnection] does, from the pool the
    rotation created and installed, not from the pool found at entry. *)
Theorem getConnection_rotates_once
    (ext : Externals) (w : World) (old : Pool) :
  use_iam_auth ext = true ->
  pool (this w) = Some old ->
  fst (isTokenExpired ext w) = Normal true ->
  let r := getConnection ext w in
  let evs := events_since w (snd r) in
  count_rotations evs = 1 /\
  exists wg,
    this wg = this w /\
    match refreshPool ext wg with
    | (Throw e, w1) =>
        r = (Throw e, w1) /\ existsb is_PoolGetConnection evs = false
    | (Normal _, w1) =>
        exists new evs',
          pool (this w1) = Some new /\
          pool_id new = createPool_calls w /\
          r = pool_getConnection ext new w1 /\
          evs = evs' ++ [PoolGetConnection (pool_id new)] /\
          count_rotations evs' = 1 /\
          existsb is_PoolGetConnection evs' = false
    end.
Proof.
  intros Hmode Hpool Hexpired r evs. subst evs r.
  destruct (freshness_gate_stale_notice ext w Hmode Hexpired)
    as (wg & g & Hgate & Hthis & Hcalls & Htrace & Hg).
  assert (Hg0 : count_rotations g = 0)
    by (destruct Hg as [-> | ->]; reflexivity).
  assert (Hgc : existsb is_PoolGetConnection g = false)
    by (destruct Hg as [-> | ->]; reflexivity).
  rewrite getConnection_spec, Hpool, Hgate.
  destruct (refreshPool_probe_free ext wg) as (rot & Hrot & Hr1 & Hrq & Hnew).
  assert (Hsplit : count_rotations (g ++ rot) = 1)
    by (rewrite count_rotations_app, Hg0, Hr1; reflexivity).
  assert (Hnoq : existsb is_PoolGetConnection (g ++ rot) = false)
    by (rewrite existsb_app, Hgc, Hrq; reflexivity).
  destruct (refreshPool ext wg) as [[[]|e] w1] eqn:Hrun; cbn [fst snd] in *.
  - destruct (Hnew eq_refl) as (new & Hinstalled & Hid).
    rewrite Hinstalled.
    assert (Hevs : events_since w (snd (pool_getConnection ext new w1))
                   = (g ++ rot) ++ [PoolGetConnection (pool_id new)]).
    { apply events_since_app. unfold pool_getConnection.
      destruct (Pool_getConnection ext (getConnection_calls w1)); cbn;
        rewrite Hrot, Htrace, <- !app_assoc; reflexivity. }
    rewrite Hevs. split.
    + rewrite count_rotations_app, Hsplit. reflexivity.
    + exists wg. split; [exact Hthis|]. rewrite Hrun.
      exists new, (g ++ rot). rewrite <- Hcalls. repeat split; assumption.
  - assert (Hevs : events_since w w1 = g ++ rot).
    { apply events_since_app. rewrite Hrot, Htrace, <- app_assoc.
      reflexivity. }
    rewrite Hevs. split; [exact Hsplit|].
    exists wg. split; [exact Hthis|]. rewrite Hrun. split; [reflexivity|].
    exact Hnoq.
Qed.

Lemma getConnection_rotates_once_witness :
  count_rotations
    (events_since (Scenario.initialized Scenario.stale)
       (snd (getConnection Scenario.stale
               (Scenario.initialized Scenario.stale)))) = 1.
Proof.
  assert (Hm : use_iam_auth Scenario.stale = true) by (vm_compute; reflexivity).
  assert (Hp : pool (this (Scenario.initialized Scenario.stale))
               = Some (Scenario.first_pool Scenario.stale "token-A"))
    by (vm_compute; reflexivity).
  assert (He : fst (isTokenExpired Scenario.stale
                      (Scenario.initialized Scenario.stale)) = Normal true)
    by (vm_compute; reflexivity).
  exact (proj1 (getConnection_rotates_once Scenario.stale _ _ Hm Hp He)).
Defined.

(* ===================================================================== *)
(** ** Expiry, the clock and the refresh interval *)
(* ===================================================================== *)

(** X10.  [isTokenExpired] never throws and changes no field; it reads the
    clock at most once, and not at all when no expiry (or the number 0) is
    stored.  For one stored expiry its answer is monotone in the clock: once
    it has answered true, it answers true at every later clock reading. *)
Theorem isTokenExpired_monotone (ext : Externals) (w1 w2 : World) :
  (exists b,
     fst (isTokenExpired ext w1) = Normal b /\
     this (snd (isTokenExpired ext w1)) = this w1 /\
     (events_since w1 (snd (isTokenExpired ext w1)) = [] \/
      events_since w1 (snd (isTokenExpired ext w1)) = [DateNow]) /\
     (tokenExpiryTime (this w1) = None \/ tokenExpiryTime (this w1) = Some 0%Z
      -> b = true /\ isTokenExpired ext w1 = (Normal true, w1))) /\
  (tokenExpiryTime (this w1) = tokenExpiryTime (this w2) ->
   (Date_now ext (now_calls w1) <= Date_now ext (now_calls w2))%Z ->
   fst (isTokenExpired ext w1) = Normal true ->
   fst (isTokenExpired ext w2) = Normal true).
Proof.
  unfold isTokenExpired, get_this, date_now, bind, ret. split.
  - destruct (tokenExpiryTime (this w1)) as [expiry|].
    + destruct (expiry =? 0)%Z eqn:Hz.
      * exists true. cbn [fst snd]. repeat split.
        left. unfold events_since. apply skipn_all.
      * eexists. cbn [fst snd]. split; [reflexivity|]. split; [reflexivity|].
        split.
        -- right. apply events_since_app. reflexivity.
        -- intros [H|H]; [discriminate H|].
           injection H as ->. discriminate Hz.
    + exists true. cbn [fst snd]. repeat split.
      left. unfold events_since. apply skipn_all.
  - intros Hsame Hle. rewrite <- Hsame.
    destruct (tokenExpiryTime (this w1)) as [expiry|]; [|auto].
    destruct (expiry =? 0)%Z; [auto|]. cbn [fst].
    intros H. injection H as H. f_equal.
    rewrite Z.geb_leb in *. apply Z.leb_le. apply Z.leb_le in H. lia.
Qed.

Lemma isTokenExpired_monotone_witness :
  fst (isTokenExpired Scenario.stale
         (tick_now (Scenario.initialized Scenario.stale))) = Normal true.
Proof.
  assert (Hsame : tokenExpiryTime (this (Scenario.initialized Scenario.stale))
                  = tokenExpiryTime
                      (this (tick_now (Scenario.initialized Scenario.stale))))
    by (vm_compute; reflexivity).
  assert (Hle : (Date_now Scenario.stale
                   (now_calls (Scenario.initialized Scenario.stale))
                 <= Date_now Scenario.stale
                      (now_calls
                         (tick_now (Scenario.initialized Scenario.stale))))%Z)
    by (vm_compute; discriminate).
  assert (Htrue : fst (isTokenExpired Scenario.stale
                         (Scenario.initialized Scenario.stale)) = Normal true)
    by (vm_compute; reflexivity).
  exact (proj2 (isTokenExpired_monotone Scenario.stale _ _) Hsame Hle Htrue).
Defined.

Lemma generateAuthToken_success (ext : Externals) (w : World) (tok : string) :
  Signer_getAuthToken ext (signer_calls w) = Normal tok ->
  fst (generateAuthToken ext w) = Normal tok /\
  currentToken (this (snd (generateAuthToken ext w))) = Some tok /\
  tokenExpiryTime (this (snd (generateAuthToken ext w)))
    = Some (Date_now ext (now_calls w) + 840000)%Z.
Proof.
  intros Hsign.
  unfold generateAuthToken, signer_getAuthToken, date_now, console_log,
    modify_this, bind, ret. cbn. rewrite Hsign. cbn. repeat split.
Qed.

(** X11.  The token is taken for fresh exactly as long as the refresh timer
    takes to fire.  After [generateAuthToken] succeeded at clock reading
    [issued] (on or after the epoch), and while the expiry it stored is in
    place, [isTokenExpired] answers false exactly when the clock shows less
    than [issued + refreshInterval], the period [initialize()] gives the
    timer: the gate of [query] and [getConnection] cannot rotate earlier than
    the scheduler is due to. *)
Theorem fresh_for_one_refresh_interval
    (ext : Externals) (w : World) (tok : string) :
  Signer_getAuthToken ext (signer_calls w) = Normal tok ->
  (0 <= Date_now ext (now_calls w))%Z ->
  forall w'',
    tokenExpiryTime (this w'')
      = tokenExpiryTime (this (snd (generateAuthToken ext w))) ->
    (fst (isTokenExpired ext w'') = Normal false <->
     (Date_now ext (now_calls w'')
      < Date_now ext (now_calls w) + refreshInterval)%Z) /\
    (fst (isTokenExpired ext w'') = Normal true <->
     (Date_now ext (now_calls w'')
      >= Date_now ext (now_calls w) + refreshInterval)%Z).
Proof.
  intros Hsign Hclock w'' Hsame.
  destruct (generateAuthToken_success ext w tok Hsign) as (_ & _ & Hexp).
  rewrite Hexp in Hsame.
  rewrite (isTokenExpired_set ext w'' _ Hsame) by lia.
  unfold refreshInterval. rewrite Z.geb_leb.
  destruct (Z.leb_spec (Date_now ext (now_calls w) + 840000 - 60000)
              (Date_now ext (now_calls w''))) as [H|H];
    split; split; intros H'; try discriminate H'; try reflexivity; lia.
Qed.

Lemma fresh_for_one_refresh_interval_witness :
  fst (isTokenExpired Scenario.healthy
         (snd (generateAuthToken Scenario.healthy
                 (initial_world Scenario.healthy)))) = Normal false.
Proof.
  assert (Hs : Signer_getAuthToken Scenario.healthy
                 (signer_calls (initial_world Scenario.healthy))
               = Normal "token-A") by reflexivity.
  assert (Hc : (0 <= Date_now Scenario.healthy
                       (now_calls (initial_world Scenario.healthy)))%Z)
    by (vm_compute; discriminate).
  assert (Hlt : (Date_now Scenario.healthy
                   (now_calls
                      (snd (generateAuthToken Scenario.healthy
                              (initial_world Scenario.healthy))))
                 < Date_now Scenario.healthy
                     (now_calls (initial_world Scenario.healthy))
                   + refreshInterval)%Z)
    by (vm_compute; reflexivity).
  exact (proj2 (proj1 (fresh_for_one_refresh_interval Scenario.healthy
                         _ _ Hs Hc _ eq_refl)) Hlt).
Defined.

(* ===================================================================== *)
(** ** What a rotation closes, creates and asks *)
(* ===================================================================== *)

(** X12.  A rotation calls [end()] on no pool but the one installed when it
    started, and on that one at most once: not at all when no pool is
    installed or when the signer fails, exactly once when the rotation
    completes.  It calls [mysql.createPool] at most once. *)
Theorem refreshPool_closes_only_the_old_pool (ext : Externals) (w : World) :
  let r := refreshPool ext w in
  let evs := events_since w (snd r) in
  length (filter is_MysqlCreatePool evs) <= 1 /\
  (pool (this w) = None ->
   filter is_any_PoolEnd evs = [] /\ ended (snd r) = ended w) /\
  (forall e, Signer_getAuthToken ext (signer_calls w) = Throw e ->
   filter is_any_PoolEnd evs = [] /\ ended (snd r) = ended w) /\
  (forall old, pool (this w) = Some old ->
     (filter is_any_PoolEnd evs = [] \/
      filter is_any_PoolEnd evs = [PoolEnd (pool_id old)]) /\
     (fst r = Normal tt ->
      filter is_any_PoolEnd evs = [PoolEnd (pool_id old)] /\
      ended (snd r) = pool_id old :: ended w)).
Proof.
  intros r evs. subst evs r.
  destruct (refreshPool ext w) as [r w'] eqn:Hrun.
  js_exec Hrun; cbn [fst snd]; trace_norm.
  all: split; [lia|].
  all: split; [intros Hnone; try discriminate Hnone; split; reflexivity|].
  all: split; [intros e0 Hs; try discriminate Hs; split; reflexivity|].
  all: intros old0 Hold; try discriminate Hold;
    try (injection Hold as <-);
    (split;
     [ first [left; reflexivity | right; reflexivity]
     | intros Hok; try discriminate Hok; split; reflexivity ]).
Qed.

Lemma refreshPool_closes_only_the_old_pool_witness :
  filter is_any_PoolEnd
    (events_since (Scenario.initialized Scenario.healthy)
       (snd (refreshPool Scenario.healthy
               (Scenario.initialized Scenario.healthy))))
  = [PoolEnd (pool_id (Scenario.first_pool Scenario.healthy "token-A"))].
Proof.
  assert (Hp : pool (this (Scenario.initialized Scenario.healthy))
               = Some (Scenario.first_pool Scenario.healthy "token-A"))
    by (vm_compute; reflexivity).
  assert (Hok : fst (refreshPool Scenario.healthy
                       (Scenario.initialized Scenario.healthy)) = Normal tt)
    by (vm_compute; reflexivity).
  exact (proj1 (proj2 (proj2 (proj2 (proj2
           (refreshPool_closes_only_the_old_pool Scenario.healthy
              (Scenario.initialized Scenario.healthy))))
           _ Hp) Hok)).
Defined.

(** X13.  [refreshPool] does not look at the auth mode before it asks the
    signer.  In password mode a rotation still calls the signer once and, if
    the signer fails, throws without touching the pool; if the signer
    answers, the token and its expiry are stored although nothing uses them:
    the pool a completed rotation installs is built with [DB_PWD] and without
    auth plugin. *)
Theorem refreshPool_password_mode (ext : Externals) (w : World) :
  use_iam_auth ext = false ->
  let r := refreshPool ext w in
  let evs := events_since w (snd r) in
  filter is_SignerGetAuthToken evs = [SignerGetAuthToken] /\
  match Signer_getAuthToken ext (signer_calls w) with
  | Throw e =>
      fst r = Throw e /\ this (snd r) = this w /\
      existsb is_MysqlCreatePool evs = false
  | Normal t =>
      currentToken (this (snd r)) = Some t /\
      tokenExpiryTime (this (snd r))
        = Some (Date_now ext (now_calls w) + 840000)%Z /\
      (fst r = Normal tt ->
       exists new,
         pool (this (snd r)) = Some new /\
         password (pool_options new) = DB_PWD (env ext) /\
         authPlugins (pool_options new) = None)
  end.
Proof.
  intros Hmode r evs. subst evs r.
  destruct (refreshPool ext w) as [r w'] eqn:Hrun.
  js_exec Hrun; cbn [fst snd]; trace_norm.
  all: split; [reflexivity|].
  all: repeat split; try (destruct (this w); reflexivity).
  all: intros Hok; try discriminate Hok; eexists; repeat split.
Qed.

Lemma refreshPool_password_mode_witness :
  currentToken
    (this (snd (refreshPool Scenario.static_password
                  (Scenario.initialized Scenario.static_password))))
  = Some "token-A".
Proof.
  assert (Hm : use_iam_auth Scenario.static_password = false)
    by (vm_compute; reflexivity).
  exact (proj1 (proj2
           (refreshPool_password_mode Scenario.static_password
              (Scenario.initialized Scenario.static_password) Hm))).
Defined.

(* ===================================================================== *)
(** ** After shutdown *)
(* ===================================================================== *)

(** X14.  After a [shutdown()] that returned, the manager is back where it
    was before [initialize()]: [query] and [getConnection] throw the
    not-initialized error and touch nothing, until the next
    [initialize()]. *)
Theorem shutdown_then_query
    (ext : Externals) (w : World) (sql : string) (params : list string) :
  fst (shutdown ext w) = Normal tt ->
  let w' := snd (shutdown ext w) in
  query ext sql params w' = (Throw not_initialized, w') /\
  getConnection ext w' = (Throw not_initialized, w').
Proof.
  intros Hok w'. subst w'.
  assert (Hnone : pool (this (snd (shutdown ext w))) = None).
  { destruct (shutdown ext w) as [r w'] eqn:Hrun.
    js_exec Hrun; try discriminate Hok; first [reflexivity | assumption]. }
  rewrite query_spec, getConnection_spec, Hnone. split; reflexivity.
Qed.

Lemma shutdown_then_query_witness :
  fst (query Scenario.healthy "SELECT 1" []
         (snd (shutdown Scenario.healthy
                 (Scenario.initialized Scenario.healthy))))
  = Throw not_initialized.
Proof.
  assert (Hok : fst (shutdown Scenario.healthy
                       (Scenario.initialized Scenario.healthy)) = Normal tt)
    by (vm_compute; reflexivity).
  exact (f_equal fst
           (proj1 (shutdown_then_query Scenario.healthy _ "SELECT 1" [] Hok))).
Defined.

(* ===================================================================== *)
(** ** Events of whole calls, for the callers of the manager *)
(* ===================================================================== *)

Lemma set_this_same (w : World) : set_this (fun _ => this w) w = w.
Proof. destruct w; reflexivity. Qed.

Lemma filter_none {A} (f : A -> bool) (l : list A) :
  existsb f l = false -> filter f l = [].
Proof.
  induction l as [|a l IH]; cbn; [reflexivity|].
  destruct (f a); cbn; [discriminate|exact IH].
Qed.

(** [initialize()] sends no query and clears no timer; when it returns a
    pool is installed. *)
Lemma initialize_frame (ext : Externals) (w : World) :
  exists evs,
    trace (snd (initialize ext w)) = trace w ++ evs /\
    existsb is_PoolQuery evs = false /\
    existsb is_ClearInterval evs = false /\
    (fst (initialize ext w) = Normal tt ->
     pool (this (snd (initialize ext w))) <> None).
Proof.
  destruct (initialize ext w) as [r w'] eqn:Hrun.
  js_exec Hrun; cbn [fst snd]; eexists;
    (split; [cbn; rewrite <- ?app_assoc; reflexivity|]);
    cbn; repeat split; intros Hok; try discriminate Hok; discriminate.
Qed.

(** [query] clears no timer; when it returns, the one query it sent went to
    the pool that is installed then. *)
Lemma query_frame (ext : Externals) (sql : string) (params : list string)
    (w : World) :
  exists evs,
    trace (snd (query ext sql params w)) = trace w ++ evs /\
    existsb is_ClearInterval evs = false /\
    (forall res, fst (query ext sql params w) = Normal res ->
       exists pl,
         pool (this (snd (query ext sql params w))) = Some pl /\
         filter is_PoolQuery evs = [PoolQuery (pool_id pl) sql params]).
Proof.
  rewrite query_spec.
  destruct (pool (this w)) as [p0|] eqn:Hpool.
  2:{ exists []. rewrite app_nil_r. repeat split. intros res H. discriminate H. }
  assert (Hgate : exists g,
            trace (snd (freshness_gate ext w)) = trace w ++ g /\
            existsb is_ClearInterval g = false /\
            existsb is_PoolQuery g = false).
  { rewrite freshness_gate_spec.
    assert (Hrot : forall wg g0,
              trace wg = trace w ++ g0 ->
              existsb is_ClearInterval g0 = false ->
              existsb is_PoolQuery g0 = false ->
              exists g,
                trace (snd (refreshPool ext wg)) = trace w ++ g /\
                existsb is_ClearInterval g = false /\
                existsb is_PoolQuery g = false).
    { intros wg g0 Hg0 Hc0 Hq0.
      destruct (refreshPool_frame ext wg)
        as (evs & Htr & _ & _ & _ & Hc & Hq & _).
      exists (g0 ++ evs). rewrite Htr, Hg0, <- app_assoc, !existsb_app.
      rewrite Hc0, Hc, Hq0, Hq. repeat split. }
    destruct (use_iam_auth ext).
    2:{ exists []. rewrite app_nil_r. repeat split. }
    destruct (tokenExpiryTime (this w)) as [expiry|].
    - destruct (expiry =? 0)%Z.
      + apply (Hrot _ [gate_notice]); reflexivity.
      + destruct (Date_now ext (now_calls w) >=? expiry - 60000)%Z.
        * apply (Hrot _ [DateNow; gate_notice]); [|reflexivity|reflexivity].
          cbn. rewrite <- app_assoc. reflexivity.
        * exists [DateNow]. repeat split.
    - apply (Hrot _ [gate_notice]); reflexivity. }
  destruct Hgate as (g & Hg & Hgc & Hgq).
  destruct (freshness_gate ext w) as [[[]|e] w1]; cbn [snd] in *.
  - destruct (pool (this w1)) as [p1|] eqn:Hp1.
    + exists (g ++ [PoolQuery (pool_id p1) sql params]).
      unfold pool_query. cbn [fst snd].
      split; [cbn; rewrite Hg, <- app_assoc; reflexivity|].
      split; [rewrite existsb_app, Hgc; reflexivity|].
      intros res _. exists p1. split; [exact Hp1|].
      rewrite filter_app, (filter_none _ _ Hgq). reflexivity.
    + exists g. repeat split; try assumption. intros res H. discriminate H.
  - exists g. repeat split; try assumption. intros res H. discriminate H.
Qed.

(** How [shutdown()] ends, and what it leaves. *)
Lemma shutdown_outcome (ext : Externals) (w : World) :
  tokenRefreshInterval (this (snd (shutdown ext w))) = None /\
  match pool (this w) with
  | None =>
      fst (shutdown ext w) = Normal tt /\
      pool (this (snd (shutdown ext w))) = None
  | Some pl =>
      match Pool_end ext (end_calls w) with
      | None =>
          fst (shutdown ext w) = Normal tt /\
          pool (this (snd (shutdown ext w))) = None /\
          In (pool_id pl) (ended (snd (shutdown ext w)))
      | Some e =>
          fst (shutdown ext w) = Throw e /\
          pool (this (snd (shutdown ext w))) = Some pl /\
          ended (snd (shutdown ext w)) = ended w
      end
  end.
Proof.
  destruct (shutdown ext w) as [r w'] eqn:Hrun.
  js_exec Hrun; cbn; repeat split; try assumption; left; reflexivity.
Qed.

(* ===================================================================== *)
(** ** The singleton and the service's manager variable *)
(* ===================================================================== *)

Ltac app_unfold :=
  unfold App.run_module_call, App.getDbManager, App.getInstance,
    App.setDbManager, App.and_then, App.read, App.update, App.done.

Lemma single_manager_step
    (ext : Externals) (c : App.ModuleCall) (p : App.Process) :
  single_manager ext p ->
  single_manager ext (snd (App.run_module_call ext c p)) /\
  (forall r, fst (App.run_module_call ext c p) = Some r ->
     r = 0 /\
     App.objects (snd (App.run_module_call ext c p)) = [constructor ext]) /\
  (App.objects p = [constructor ext] ->
   App.objects (snd (App.run_module_call ext c p)) = [constructor ext]) /\
  fst (App.getDbManager ext p) = App.Done 0.
Proof.
  unfold single_manager.
  intros [(Hi & Ho & Hs) | (Hi & Ho & [Hs | Hs])]; destruct c;
    app_unfold; cbn; rewrite ?Hs, ?Hi, ?Ho; cbn; rewrite ?Hi; cbn.
  all: split; [ first [ left; repeat split; reflexivity
                      | right; repeat split; auto ] |].
  all: split; [ intros r0 Hr; try discriminate Hr;
                injection Hr as <-;
                split; first [reflexivity | assumption] |].
  all: split; [ intros H;
                first [exact H | reflexivity | assumption | discriminate H]
              | reflexivity ].
Qed.

Lemma single_manager_run
    (ext : Externals) (cs : list App.ModuleCall) (p0 : App.Process) :
  single_manager ext p0 ->
  single_manager ext (snd (App.run_module_calls ext cs p0)) /\
  Forall (fun r => r = 0) (fst (App.run_module_calls ext cs p0)) /\
  (fst (App.run_module_calls ext cs p0) <> [] ->
   App.objects (snd (App.run_module_calls ext cs p0)) = [constructor ext]) /\
  (App.objects p0 = [constructor ext] ->
   App.objects (snd (App.run_module_calls ext cs p0)) = [constructor ext]).
Proof.
  revert p0. induction cs as [|c cs IH]; intros p0 Hinv.
  - cbn. repeat split; auto. intros H. exfalso. apply H. reflexivity.
  - cbn [App.run_module_calls].
    destruct (single_manager_step ext c p0 Hinv) as (Hinv' & Hret & Hkeep & _).
    destruct (App.run_module_call ext c p0) as [r p1].
    cbn [fst snd] in *.
    destruct (IH p1 Hinv') as (Hfin & Hrs & Hsome & Hstay).
    destruct (App.run_module_calls ext cs p1) as [rs p2].
    cbn [fst snd] in *.
    split; [exact Hfin|]. split; [|split].
    + destruct r as [r|]; [|exact Hrs].
      constructor; [exact (proj1 (Hret r eq_refl))|exact Hrs].
    + destruct r as [r|].
      * intros _. apply Hstay. exact (proj2 (Hret r eq_refl)).
      * exact Hsome.
    + intros H0. apply Hstay, Hkeep, H0.
Qed.

(** X15.  [getInstance()] constructs at most one manager.  In any sequence
    of [getInstance()], [getDbManager()], [setDbManager(null)] and
    [setDbManager(getInstance())] calls after the modules are loaded, at most
    one [RdsIamAuthManager] is constructed, every reference returned is the
    reference of that one object, and a following [getDbManager()] returns
    that reference too: with the service's variable unset or set to null it
    falls back on the singleton. *)
Theorem single_manager_object (ext : Externals) (cs : list App.ModuleCall) :
  let rs := fst (App.run_module_calls ext cs (App.initial_process ext)) in
  let p := snd (App.run_module_calls ext cs (App.initial_process ext)) in
  length (App.objects p) <= 1 /\
  Forall (fun r => r = 0) rs /\
  (rs <> [] -> App.objects p = [constructor ext]) /\
  fst (App.getDbManager ext p) = App.Done 0 /\
  App.objects (snd (App.getDbManager ext p)) = [constructor ext].
Proof.
  intros rs p. subst rs p.
  assert (Hinit : single_manager ext (App.initial_process ext))
    by (left; repeat split).
  destruct (single_manager_run ext cs _ Hinit) as (Hinv & Hrs & Hsome & _).
  destruct (single_manager_step ext App.GetDbManager _ Hinv)
    as (_ & Hret & _ & Hget).
  split; [|split; [exact Hrs|split; [exact Hsome|split; [exact Hget|]]]].
  - destruct Hinv as [(_ & -> & _) | (_ & -> & _)]; cbn; lia.
  - cbn [App.run_module_call] in Hret.
    destruct (App.getDbManager ext
                (snd (App.run_module_calls ext cs (App.initial_process ext))))
      as [[r| |] p1]; try discriminate Hget.
    cbn [fst snd] in *. exact (proj2 (Hret r eq_refl)).
Qed.

Lemma single_manager_object_witness :
  App.objects
    (snd (App.run_module_calls Scenario.healthy
            [App.GetDbManager; App.SetDbManagerNull; App.GetInstance]
            (App.initial_process Scenario.healthy)))
  = [constructor Scenario.healthy].
Proof.
  assert (Hne : fst (App.run_module_calls Scenario.healthy
                       [App.GetDbManager; App.SetDbManagerNull;
                        App.GetInstance]
                       (App.initial_process Scenario.healthy)) <> [])
    by (vm_compute; discriminate).
  exact (proj1 (proj2 (proj2
           (single_manager_object Scenario.healthy
              [App.GetDbManager; App.SetDbManagerNull; App.GetInstance])))
           Hne).
Defined.

(* ===================================================================== *)
(** ** Start-up *)
(* ===================================================================== *)

(** [startServer()] on a freshly loaded process, as one [initialize] and one
    [query] of the manager. *)
Lemma startServer_run (ext : Externals) :
  let w0 := log_event (ConsoleLog [Str "Initializing database..."])
              (initial_world ext) in
  let failed e w s :=
    (App.Exited 1%Z,
     {| App.world :=
          log_event (ConsoleError [Str "Failed to start server:"; Err e])
            (log_event
               (ConsoleError [Str "Error initializing database:";
                              Str (match e with MkError m => m end)]) w);
        App.objects := [this w];
        App.instance := Some 0;
        App.index_dbManager := Some 0;
        App.service_dbManager := s;
        App.server := None;
        App.server_closed := false;
        App.signal_handlers := [] |}) in
  App.startServer ext (App.initial_process ext) =
    match initialize ext w0 with
    | (Throw e, w1) => failed e w1 None
    | (Normal _, w1) =>
        match query ext (App.createTableQuery) [] w1 with
        | (Throw e, w2) => failed e w2 (Some 0)
        | (Normal _, w2) =>
            (App.Done tt,
             {| App.world :=
                  log_event
                    (ConsoleLog [Str "Database initialization complete"])
                    (log_event
                       (ConsoleLog
                          [Str "Transactions table checked/created successfully"])
                       w2);
                App.objects := [this w2];
                App.instance := Some 0;
                App.index_dbManager := Some 0;
                App.service_dbManager := Some 0;
                App.server := Some App.port;
                App.server_closed := false;
                App.signal_handlers := ["SIGTERM"; "SIGINT"] |})
        end
    end.
Proof.
  intros w0 failed. subst w0 failed.
  unfold App.startServer, App.initializeDatabase, App.setupGracefulShutdown,
    App.getInstance, App.setDbManager, App.on_manager, App.in_world,
    App.catching, App.and_then, App.read, App.update, App.done, App.raise,
    App.process_exit, console_log, console_error.
  cbn -[initialize query App.createTableQuery].
  change (set_this (fun _ => constructor ext)
            (log_event (ConsoleLog [Str "Initializing database..."])
               (initial_world ext)))
    with (log_event (ConsoleLog [Str "Initializing database..."])
            (initial_world ext)).
  destruct (initialize ext
              (log_event (ConsoleLog [Str "Initializing database..."])
                 (initial_world ext))) as [[[]|e] w1].
  - cbn -[initialize query App.createTableQuery].
    rewrite set_this_same.
    destruct (query ext App.createTableQuery [] w1) as [[res|e] w2];
      reflexivity.
  - reflexivity.
Qed.

(** A rotation announces no shutdown, leaves the timers armed and leaves a
    pool installed where it found one; so do [initialize] and [query]. *)
Lemma refreshPool_quiet (ext : Externals) (w : World) :
  exists evs,
    trace (snd (refreshPool ext w)) = trace w ++ evs /\
    existsb is_shutdown_start evs = false /\
    timers (snd (refreshPool ext w)) = timers w /\
    (pool (this w) <> None -> pool (this (snd (refreshPool ext w))) <> None).
Proof.
  destruct (refreshPool ext w) as [r w'] eqn:Hrun.
  js_exec Hrun; cbn [fst snd]; eexists;
    (split; [cbn; rewrite <- ?app_assoc; reflexivity|]);
    cbn; (split; [reflexivity|]); (split; [reflexivity|]);
    intros Hp; first [discriminate | exact Hp | congruence].
Qed.

Lemma initialize_quiet (ext : Externals) (w : World) :
  exists evs,
    trace (snd (initialize ext w)) = trace w ++ evs /\
    existsb is_shutdown_start evs = false.
Proof.
  destruct (initialize ext w) as [r w'] eqn:Hrun.
  js_exec Hrun; cbn [fst snd]; eexists;
    (split; [cbn; rewrite <- ?app_assoc; reflexivity|]);
    reflexivity.
Qed.

Lemma query_quiet (ext : Externals) (sql : string) (params : list string)
    (w : World) :
  exists evs,
    trace (snd (query ext sql params w)) = trace w ++ evs /\
    existsb is_shutdown_start evs = false /\
    timers (snd (query ext sql params w)) = timers w /\
    (pool (this w) <> None ->
     pool (this (snd (query ext sql params w))) <> None).
Proof.
  rewrite query_spec.
  destruct (pool (this w)) as [p0|] eqn:Hpool.
  2:{ exists []. rewrite app_nil_r. repeat split.
      intros H. exfalso. apply H. reflexivity. }
  assert (Hgate : exists g,
            trace (snd (freshness_gate ext w)) = trace w ++ g /\
            existsb is_shutdown_start g = false /\
            timers (snd (freshness_gate ext w)) = timers w /\
            pool (this (snd (freshness_gate ext w))) <> None).
  { rewrite freshness_gate_spec.
    assert (Hrot : forall wg g0,
              trace wg = trace w ++ g0 ->
              existsb is_shutdown_start g0 = false ->
              timers wg = timers w ->
              this wg = this w ->
              exists g,
                trace (snd (refreshPool ext wg)) = trace w ++ g /\
                existsb is_shutdown_start g = false /\
                timers (snd (refreshPool ext wg)) = timers w /\
                pool (this (snd (refreshPool ext wg))) <> None).
    { intros wg g0 Hg0 Hs0 Ht0 Hthis.
      destruct (refreshPool_quiet ext wg) as (evs & Htr & Hs & Ht & Hp).
      exists (g0 ++ evs). rewrite Htr, Hg0, <- app_assoc, existsb_app.
      rewrite Hs0, Hs, Ht, Ht0. repeat split.
      apply Hp. rewrite Hthis, Hpool. discriminate. }
    destruct (use_iam_auth ext).
    2:{ exists []. rewrite app_nil_r. repeat split.
        cbn. rewrite Hpool. discriminate. }
    destruct (tokenExpiryTime (this w)) as [expiry|].
    - destruct (expiry =? 0)%Z.
      + apply (Hrot _ [gate_notice]); reflexivity.
      + destruct (Date_now ext (now_calls w) >=? expiry - 60000)%Z.
        * apply (Hrot _ [DateNow; gate_notice]); try reflexivity.
          cbn. rewrite <- app_assoc. reflexivity.
        * exists [DateNow]. repeat split. cbn. rewrite Hpool. discriminate.
    - apply (Hrot _ [gate_notice]); reflexivity. }
  destruct Hgate as (g & Hg & Hgs & Hgt & Hgp).
  destruct (freshness_gate ext w) as [[[]|e] w1]; cbn [snd] in *.
  - destruct (pool (this w1)) as [p1|] eqn:Hp1.
    + exists (g ++ [PoolQuery (pool_id p1) sql params]).
      unfold pool_query. cbn [fst snd].
      split; [cbn; rewrite Hg, <- app_assoc; reflexivity|].
      split; [rewrite existsb_app, Hgs; reflexivity|].
      split; [exact Hgt|]. intros _. cbn. rewrite Hp1. discriminate.
    + exfalso. apply Hgp. reflexivity.
  - exists g. split; [exact Hg|]. split; [exact Hgs|]. split; [exact Hgt|].
    intros _. exact Hgp.
Qed.

(** X16.  [startServer()] on a freshly loaded process never throws: it
    returns, or the process exits with code 1.  Either way one manager has
    been constructed, no timer has been cleared and no [shutdown()] of the
    manager has begun.  When it returns, the server listens on port 4000,
    handlers for SIGTERM and SIGINT are registered, the service's manager
    variable holds the singleton, a pool is installed, and the only query
    sent so far is the CREATE TABLE statement, without parameters, to the
    pool installed now.  It returns exactly when [initialize()] and that
    query both return.  When [initialize()] throws [e], no query is sent and
    the service never receives the manager; when [initialize()] returns and
    the query throws [e], the service holds the manager and the pool stays
    installed.  In both cases [e] is logged by [initializeDatabase] (its
    message) and by [startServer], these two lines end the output, and the
    process exits with code 1 without listening, without signal handlers,
    and with the manager as the failed call left it, its timers armed as
    [initialize()] left them. *)
Theorem startServer_spec (ext : Externals) :
  let o := fst (App.startServer ext (App.initial_process ext)) in
  let p := snd (App.startServer ext (App.initial_process ext)) in
  let w1 := snd (initialize ext (startup_world ext)) in
  let w2 := snd (query ext App.createTableQuery [] w1) in
  (o = App.Done tt \/ o = App.Exited 1%Z) /\
  App.instance p = Some 0 /\
  App.index_dbManager p = Some 0 /\
  length (App.objects p) = 1 /\
  existsb is_ClearInterval (trace (App.world p)) = false /\
  App.server_closed p = false /\
  (o = App.Done tt ->
   App.server p = Some 4000%Z /\
   App.signal_handlers p = ["SIGTERM"; "SIGINT"] /\
   App.service_dbManager p = Some 0 /\
   exists obj pl,
     App.objects p = [obj] /\
     pool obj = Some pl /\
     filter is_PoolQuery (trace (App.world p))
       = [PoolQuery (pool_id pl) App.createTableQuery []]) /\
  (o = App.Exited 1%Z ->
   App.server p = None /\
   App.signal_handlers p = [] /\
   exists e,
     In (ConsoleError [Str "Error initializing database:";
                       Str (match e with MkError m => m end)])
       (trace (App.world p)) /\
     last (trace (App.world p)) DateNow
       = ConsoleError [Str "Failed to start server:"; Err e]) /\
  (forall e, fst (initialize ext (startup_world ext)) = Throw e ->
     o = App.Exited 1%Z /\
     App.service_dbManager p = None /\
     App.objects p = [this w1] /\
     timers (App.world p) = timers w1 /\
     trace (App.world p) = trace w1 ++ startup_failure e /\
     existsb is_PoolQuery (trace (App.world p)) = false) /\
  (fst (initialize ext (startup_world ext)) = Normal tt ->
   forall e, fst (query ext App.createTableQuery [] w1) = Throw e ->
     o = App.Exited 1%Z /\
     App.service_dbManager p = Some 0 /\
     App.objects p = [this w2] /\
     pool (this w2) <> None /\
     timers (App.world p) = timers w1 /\
     trace (App.world p) = trace w2 ++ startup_failure e) /\
  (fst (initialize ext (startup_world ext)) = Normal tt ->
   forall rows, fst (query ext App.createTableQuery [] w1) = Normal rows ->
     o = App.Done tt /\
     App.objects p = [this w2] /\
     timers (App.world p) = timers w1 /\
     trace (App.world p)
       = trace w2 ++
         [ConsoleLog [Str "Transactions table checked/created successfully"];
          ConsoleLog [Str "Database initialization complete"]]) /\
  existsb is_shutdown_start (trace (App.world p)) = false.
Proof.
  intros o p w1 w2. subst o p w1 w2. rewrite startServer_run. cbv zeta.
  unfold startup_world.
  set (w0 := log_event (ConsoleLog [Str "Initializing database..."])
               (initial_world ext)).
  destruct (initialize_frame ext w0) as (evsI & HtrI & HqI & HcI & HpI).
  destruct (initialize_quiet ext w0) as (evsI' & HtrI' & HsI).
  assert (Htr0 : trace w0 = [ConsoleLog [Str "Initializing database..."]])
    by reflexivity.
  destruct (initialize ext w0) as [[[]|e] w1]; cbn [fst snd] in *.
  - destruct (query_frame ext App.createTableQuery [] w1)
      as (evsQ & HtrQ & HcQ & HpQ).
    destruct (query_quiet ext App.createTableQuery [] w1)
      as (evsQ' & HtrQ' & HsQ & HtQ & HplQ).
    destruct (query ext App.createTableQuery [] w1) as [[res|e] w2];
      cbn [fst snd] in *.
    + split; [left; reflexivity|].
      split; [reflexivity|]. split; [reflexivity|]. split; [reflexivity|].
      split; [cbn; rewrite HtrQ, HtrI, Htr0, !existsb_app, HcI, HcQ;
              reflexivity|].
      split; [reflexivity|].
      split.
      { intros _. split; [reflexivity|]. split; [reflexivity|].
        split; [reflexivity|].
        destruct (HpQ res eq_refl) as (pl & Hpl & Hfilter).
        exists (this w2), pl. split; [reflexivity|]. split; [exact Hpl|].
        cbn. rewrite HtrQ, HtrI, Htr0, !filter_app, Hfilter.
        rewrite (filter_none _ _ HqI). reflexivity. }
      split; [intros Hex; discriminate Hex|].
      split; [intros e He; discriminate He|].
      split; [intros _ e He; discriminate He|].
      split.
      { intros _ rows _. split; [reflexivity|]. split; [reflexivity|].
        split; [exact HtQ|]. cbn. rewrite <- app_assoc. reflexivity. }
      cbn. rewrite HtrQ', HtrI', Htr0, !existsb_app, HsI, HsQ. reflexivity.
    + split; [right; reflexivity|].
      split; [reflexivity|]. split; [reflexivity|]. split; [reflexivity|].
      split; [cbn; rewrite HtrQ, HtrI, Htr0, !existsb_app, HcI, HcQ;
              reflexivity|].
      split; [reflexivity|].
      split; [intros Hex; discriminate Hex|].
      split.
      { intros _. split; [reflexivity|]. split; [reflexivity|].
        exists e. split.
        * cbn. apply in_or_app. left. apply in_or_app. right.
          left. reflexivity.
        * cbn. apply last_last. }
      split; [intros e' He; discriminate He|].
      split.
      { intros _ e' He. injection He as <-.
        split; [reflexivity|]. split; [reflexivity|]. split; [reflexivity|].
        split; [apply HplQ, HpI; reflexivity|].
        split; [exact HtQ|]. cbn. rewrite <- app_assoc. reflexivity. }
      split; [intros _ rows He; discriminate He|].
      cbn. rewrite HtrQ', HtrI', Htr0, !existsb_app, HsI, HsQ. reflexivity.
  - split; [right; reflexivity|].
    split; [reflexivity|]. split; [reflexivity|]. split; [reflexivity|].
    split; [cbn; rewrite HtrI, Htr0, !existsb_app, HcI; reflexivity|].
    split; [reflexivity|].
    split; [intros Hex; discriminate Hex|].
    split.
    { intros _. split; [reflexivity|]. split; [reflexivity|].
      exists e. split.
      + cbn. apply in_or_app. left. apply in_or_app. right.
        left. reflexivity.
      + cbn. apply last_last. }
    split.
    { intros e' He. injection He as <-.
      split; [reflexivity|]. split; [reflexivity|]. split; [reflexivity|].
      split; [reflexivity|].
      split; [cbn; rewrite <- app_assoc; reflexivity|].
      cbn. rewrite HtrI, Htr0, !existsb_app, HqI. reflexivity. }
    split; [intros He; discriminate He|].
    split; [intros He; discriminate He|].
    cbn. rewrite HtrI', Htr0, !existsb_app, HsI. reflexivity.
Qed.

Lemma startServer_spec_witness :
  App.server (snd (App.startServer Scenario.healthy
                     (App.initial_process Scenario.healthy)))
  = Some 4000%Z /\
  fst (App.startServer probe_fails (App.initial_process probe_fails))
  = App.Exited 1%Z.
Proof.
  assert (Hok : fst (App.startServer Scenario.healthy
                       (App.initial_process Scenario.healthy)) = App.Done tt)
    by (vm_compute; reflexivity).
  assert (Hfail : fst (initialize probe_fails (startup_world probe_fails))
                  = Throw Scenario.boom) by (vm_compute; reflexivity).
  split.
  - exact (proj1 (proj1 (proj2 (proj2 (proj2 (proj2 (proj2 (proj2
             (startServer_spec Scenario.healthy))))))) Hok)).
  - exact (proj1 (proj1 (proj2 (proj2 (proj2 (proj2 (proj2 (proj2 (proj2
             (proj2 (startServer_spec probe_fails))))))))) _ Hfail)).
Defined.

(* ===================================================================== *)
(** ** The signal handler *)
(* ===================================================================== *)

Lemma nth_error_store (r : App.Ref) (x obj : Manager) (os : list Manager) :
  nth_error os r = Some obj -> nth_error (App.store r x os) r = Some x.
Proof.
  revert r. induction os as [|o os IH]; intros [|r] H; cbn in *;
    try discriminate H; [reflexivity|]. apply IH. exact H.
Qed.

Lemma on_signal_run
    (ext : Externals) (p : App.Process) (signal : string)
    (r : App.Ref) (obj : Manager) :
  App.index_dbManager p = Some r ->
  nth_error (App.objects p) r = Some obj ->
  let w0 := set_this (fun _ => obj)
              (log_event
                 (ConsoleLog
                    [Str (App.newline ++ signal
                          ++ " received, shutting down gracefully...")])
                 (App.world p)) in
  let after w1 :=
    {| App.world := w1;
       App.objects := App.store r (this w1) (App.objects p);
       App.instance := App.instance p;
       App.index_dbManager := Some r;
       App.service_dbManager := App.service_dbManager p;
       App.server := App.server p;
       App.server_closed :=
         match App.server p with
         | Some _ => true
         | None => App.server_closed p
         end;
       App.signal_handlers := App.signal_handlers p |} in
  App.on_signal ext signal p =
    match shutdown ext w0 with
    | (Normal _, w1) => (App.Exited 0%Z, after w1)
    | (Throw e, w1) => (App.Raised e, after w1)
    end.
Proof.
  intros Hdb Hobj w0 after. subst w0 after.
  unfold App.on_signal, App.on_manager, App.in_world, App.and_then, App.read,
    App.update, App.done, App.process_exit, console_log.
  cbn -[shutdown append].
  destruct (App.server p) as [port|] eqn:Hs;
    cbn -[shutdown append]; rewrite Hdb; cbn -[shutdown append];
    rewrite Hobj;
    match goal with
    | |- context [shutdown ext ?w] =>
        destruct (shutdown ext w) as [[[]|e] w1]
    end;
    unfold App.with_objects, App.with_world, App.with_server_closed;
    cbn -[append]; rewrite ?Hdb, ?Hs; reflexivity.
Qed.

(** X17.  The handler of SIGTERM and SIGINT never returns: it ends in
    [process.exit(0)] or in a throw.  It tells the HTTP server to close if
    there is one, then shuts the manager down.  If no pool is installed or
    [end()] of the installed pool resolves, the process exits with code 0,
    the pool gone and ended.  If [end()] rejects with [e], the handler throws
    [e]: [process.exit] is not reached, the timer handle is already null and
    the pool is still installed. *)
Theorem on_signal_spec
    (ext : Externals) (p : App.Process) (signal : string)
    (r : App.Ref) (obj : Manager) :
  App.index_dbManager p = Some r ->
  nth_error (App.objects p) r = Some obj ->
  let o := fst (App.on_signal ext signal p) in
  let p' := snd (App.on_signal ext signal p) in
  (forall a, o <> App.Done a) /\
  App.server_closed p'
    = match App.server p with
      | Some _ => true
      | None => App.server_closed p
      end /\
  exists obj',
    nth_error (App.objects p') r = Some obj' /\
    tokenRefreshInterval obj' = None /\
    match pool obj with
    | None => o = App.Exited 0%Z /\ pool obj' = None
    | Some pl =>
        match Pool_end ext (end_calls (App.world p)) with
        | None =>
            o = App.Exited 0%Z /\ pool obj' = None /\
            In (pool_id pl) (ended (App.world p'))
        | Some e =>
            o = App.Raised e /\ pool obj' = Some pl /\
            ended (App.world p') = ended (App.world p)
        end
    end.
Proof.
  intros Hdb Hobj o p'. subst o p'.
  rewrite (on_signal_run ext p signal r obj Hdb Hobj). cbv zeta.
  set (w0 := set_this (fun _ => obj) _).
  pose proof (shutdown_outcome ext w0) as (Hhandle & Hout).
  change (pool (this w0)) with (pool obj) in Hout.
  change (end_calls w0) with (end_calls (App.world p)) in Hout.
  change (ended w0) with (ended (App.world p)) in Hout.
  destruct (shutdown ext w0) as [[[]|e] w1]; cbn [fst snd] in *.
  all: split; [intros a Ha; discriminate Ha|].
  all: split; [reflexivity|].
  all: exists (this w1);
    (split; [apply (nth_error_store _ _ _ _ Hobj)|]);
    (split; [exact Hhandle|]).
  all: destruct (pool obj) as [pl|];
    [ destruct (Pool_end ext (end_calls (App.world p))) as [e'|] |].
  all: first
    [ destruct Hout as (Ho & Hp & He);
      first [ discriminate Ho
            | injection Ho as <-; repeat split; assumption
            | repeat split; assumption ]
    | destruct Hout as (Ho & Hp);
      first [ discriminate Ho | repeat split; assumption ] ].
Qed.

Lemma on_signal_spec_witness :
  App.server_closed
    (snd (App.on_signal Scenario.close_fails "SIGTERM"
            (started_process Scenario.close_fails)))
  = true.
Proof.
  assert (Hdb : App.index_dbManager (started_process Scenario.close_fails)
                = Some 0) by reflexivity.
  assert (Hobj : nth_error
                   (App.objects (started_process Scenario.close_fails)) 0
                 = Some (this (Scenario.initialized Scenario.close_fails)))
    by reflexivity.
  exact (proj1 (proj2 (on_signal_spec Scenario.close_fails _ "SIGTERM" _ _
                         Hdb Hobj))).
Defined.
